(** * inner-swa-app: the duty-roster submission endpoint and the roster list

    A shallow embedding of the two pieces of the application that carry
    behaviour:

    - the [saveDuty] HTTP function (principal check, payload validation,
      forward to Power Automate), and
    - the [handleDragEnd] reorder step of the roster UI, with the user
      lookup and the save action of the same page.

    JavaScript values are an inductive type; the handler is written in a
    small monad with JavaScript's three ways of finishing a statement
    (normally, by [return], by [throw]); everything outside the program
    (the request, the environment, the clock, the sink, and the library
    calls of the Node runtime) is an explicit argument. *)

From Stdlib Require Import String Ascii List ZArith Bool Lia Permutation.
From Stdlib Require Import DecimalString.
From Stdlib Require Import Floats.PrimFloat.
Import ListNotations.

Local Open Scope string_scope.
Set Warnings "-register-all".

(* ===================================================================== *)
(** ** JavaScript values *)
(* ===================================================================== *)

Module JS.

(** What [JSON.parse] can produce, plus [undefined] (the result of reading
    a property that is not there).  Numbers are IEEE binary64, as in
    JavaScript.  An object is the list of its own properties in insertion
    order. *)
Inductive value : Type :=
| VUndefined
| VNull
| VBool (b : bool)
| VNumber (x : float)
| VString (s : string)
| VArray (items : list value)
| VObject (props : list (string * value)).

Inductive exn : Type :=
| TypeError (msg : string)
| SyntaxError (msg : string)
| RangeError (msg : string)
| HostError (msg : string).

(** [!!v] *)
Definition truthy (v : value) : bool :=
  match v with
  | VUndefined | VNull => false
  | VBool b => b
  | VNumber x => negb (PrimFloat.eqb x PrimFloat.zero || PrimFloat.is_nan x)
  | VString s => negb (String.eqb s "")
  | VArray _ | VObject _ => true
  end.

(** [typeof v] *)
Definition typeof (v : value) : string :=
  match v with
  | VUndefined => "undefined"
  | VNull => "object"
  | VBool _ => "boolean"
  | VNumber _ => "number"
  | VString _ => "string"
  | VArray _ | VObject _ => "object"
  end.

(** [Array.isArray(v)] *)
Definition Array_isArray (v : value) : bool :=
  match v with VArray _ => true | _ => false end.

(** [v === 'lit'] for a string literal. *)
Definition strict_eq_string (v : value) (lit : string) : bool :=
  match v with VString s => String.eqb s lit | _ => false end.

(** Own property lookup. *)
Fixpoint own (k : string) (props : list (string * value)) : option value :=
  match props with
  | [] => None
  | (k', v) :: rest => if String.eqb k k' then Some v else own k rest
  end.

(** [v.k] on a base that is neither [null] nor [undefined].  The program
    reads the properties [identityProvider], [userDetails], [userId],
    [duties], [id], [day], [member] and [savedAt] only; none of them is
    defined on a built-in prototype, none is an array index or [length],
    so the read is an own-property lookup on an object and [undefined] on
    every other base. *)
Definition prop (v : value) (k : string) : value :=
  match v with
  | VObject props => match own k props with Some x => x | None => VUndefined end
  | _ => VUndefined
  end.

Definition nullish (v : value) : bool :=
  match v with VUndefined | VNull => true | _ => false end.

(** [!x] for [x : string | null | undefined]: [nonfalsy x] is [Some s] exactly
    when [x] is a non-empty string [s]. *)
Definition nonfalsy (x : option string) : option string :=
  match x with
  | Some s => if String.eqb s "" then None else Some s
  | None => None
  end.

(** Decimal rendering of an integer-valued number. *)
Definition show_Z (z : Z) : string := NilZero.string_of_int (Z.to_int z).

(** The length of a string as JavaScript counts it, in UTF-16 code units.
    The strings here hold UTF-8 bytes: the first byte of a character of
    one, two or three bytes stands for one code unit, the first byte of a
    character of four for a surrogate pair, a continuation byte for
    nothing. *)
Definition units_of_byte (c : ascii) : N :=
  let b := N_of_ascii c in
  if (b <? 128)%N then 1%N
  else if (b <? 192)%N then 0%N
  else if (b <? 240)%N then 1%N
  else 2%N.

Fixpoint code_units (s : string) : N :=
  match s with
  | EmptyString => 0%N
  | String c rest => (units_of_byte c + code_units rest)%N
  end.

Section ToString.

(** [Number::toString] of the runtime. *)
Variable Number_toString : float -> string.

(** The length of the longest string the runtime can hold. *)
Variable longest : N.

(** The result of a string concatenation: the string, or the [RangeError]
    of a result that would be too long. *)
Definition fits (s : string) : exn + string :=
  if (code_units s <=? longest)%N then inr s
  else inl (RangeError "Invalid string length").

(** [ToString(v)], as applied to the substitutions of a template literal.
    On an object [OrdinaryToPrimitive] calls [toString] and then [valueOf]
    if they are callable; a property read back from JSON never is, so an
    own [toString] shadows [Object.prototype.toString] and the conversion
    ends in a [TypeError].  An array is joined with [","], [null] and
    [undefined] elements giving the empty string: [R] is the text so far,
    the separator and then the element are appended to it.  The join of
    an array inside an array is a nested call, and [stack] is the number
    of nested joins the call stack still has room for: an array met when
    there is room for none ends the conversion in a [RangeError]. *)
Fixpoint ToString (stack : nat) (v : value) {struct v} : exn + string :=
  match v with
  | VUndefined => inr "undefined"
  | VNull => inr "null"
  | VBool true => inr "true"
  | VBool false => inr "false"
  | VNumber x => inr (Number_toString x)
  | VString s => inr s
  | VArray items =>
      match stack with
      | O => inl (RangeError "Maximum call stack size exceeded")
      | S stack' =>
          (fix join (R : string) (first : bool) (l : list value)
             : exn + string :=
             match l with
             | [] => inr R
             | x :: rest =>
                 match (if first then inr R else fits (R ++ ",")) with
                 | inl e => inl e
                 | inr R1 =>
                     match (if nullish x then inr "" else ToString stack' x) with
                     | inl e => inl e
                     | inr next =>
                         match fits (R1 ++ next) with
                         | inl e => inl e
                         | inr R2 => join R2 false rest
                         end
                     end
                 end
             end) "" true items
      end
  | VObject props =>
      match own "toString" props with
      | Some _ => inl (TypeError "Cannot convert object to primitive value")
      | None => inr "[object Object]"
      end
  end.

End ToString.

End JS.

Import JS.

(* ===================================================================== *)
(** ** Effects: completions, the clock and the trace *)
(* ===================================================================== *)

Module Effects.

(** The object an HTTP function returns. *)
Record HttpResponse : Type := mkResponse {
  status : Z;
  jsonBody : value
}.

(** The options object of the outbound [fetch]. *)
Record RequestInit : Type := mkInit {
  method : string;
  headers : list (string * string);
  body : string
}.

Inductive level : Type := info | warning | error.

Inductive logarg : Type :=
| LStr (s : string)
| LErr (e : exn).

(** What the handler does to the outside, in order. *)
Inductive event : Type :=
| Log (lvl : level) (args : list logarg)    (* context.log / warn / error *)
| ReadJson                                  (* request.json() *)
| Fetch (url : string) (init : RequestInit) (* fetch(url, init) *)
| ReadText.                                 (* paResponse.text() *)

Record state : Type := mkState {
  ticks : nat;          (* how many times the clock has been read *)
  trace : list event    (* oldest first *)
}.

Definition start : state := mkState 0 [].

(** How a statement list finishes. *)
Inductive completion (A : Type) : Type :=
| Normal (a : A)
| Return (r : HttpResponse)
| Throw (e : exn).
Arguments Normal {A} a.
Arguments Return {A} r.
Arguments Throw {A} e.

Definition M (A : Type) : Type := state -> completion A * state.

Definition ret {A} (a : A) : M A := fun s => (Normal a, s).

Definition bind {A B} (m : M A) (k : A -> M B) : M B :=
  fun s =>
    match m s with
    | (Normal a, s') => k a s'
    | (Return r, s') => (Return r, s')
    | (Throw e, s') => (Throw e, s')
    end.

(** [return r;] *)
Definition return_ {A} (r : HttpResponse) : M A := fun s => (Return r, s).

(** [throw e;] *)
Definition throw {A} (e : exn) : M A := fun s => (Throw e, s).

(** [try { block } catch (e) { handler e }]: only a [throw] is caught, a
    [return] inside the block leaves the function. *)
Definition try_catch {A} (block : M A) (handler : exn -> M A) : M A :=
  fun s =>
    match block s with
    | (Throw e, s') => handler e s'
    | other => other
    end.

(** [if (c) { block }] *)
Definition when (c : bool) (block : M unit) : M unit :=
  if c then block else ret tt.

Definition emit (e : event) : M unit :=
  fun s => (Normal tt, mkState (ticks s) (trace s ++ [e])).

Definition lift {A} (r : exn + A) : M A :=
  match r with inl e => throw e | inr a => ret a end.

End Effects.

Import Effects.

Declare Scope js_scope.
Delimit Scope js_scope with js.
Notation "x <- m ;; k" := (bind m (fun x => k))
  (at level 100, m at next level, right associativity) : js_scope.
Notation "m ;; k" := (bind m (fun _ => k))
  (at level 100, right associativity) : js_scope.

(* ===================================================================== *)
(** ** The saveDuty function *)
(* ===================================================================== *)

Module SaveDuty.

Local Open Scope js_scope.

(** The library calls of the Node runtime the function relies on. *)
Record Platform : Type := mkPlatform {
  base64_utf8 : string -> string;       (* Buffer.from(s, 'base64').toString('utf-8') *)
  JSON_parse : string -> exn + value;   (* inl: the SyntaxError thrown *)
  JSON_stringify : value -> exn + string;   (* inl: the exception thrown,
                                               a RangeError on a value
                                               nested too deep *)
  Number_toString : float -> string;
  call_stack : nat;   (* how many nested Array.prototype.join calls the
                         stack has room for where the handler runs *)
  longest_string : N; (* buffer.constants.MAX_STRING_LENGTH *)
  longest_string_roomy : (268435440 <=? longest_string)%N = true
                      (* 2^28 - 16, its value on a 32-bit build, is the
                         least it has been *)
}.

(** The sink's answer: [text] is the outcome of [await paResponse.text()]. *)
Record SinkResponse : Type := mkSink {
  sink_status : Z;
  sink_text : exn + string
}.

(** [paResponse.ok]: the status is in the range 200 to 299. *)
Definition ok (r : SinkResponse) : bool :=
  (200 <=? sink_status r)%Z && (sink_status r <=? 299)%Z.

(** Everything one invocation reads from outside. *)
Record World : Type := mkWorld {
  headers_get : string -> option string;   (* request.headers.get(name); None is null *)
  request_json : exn + value;              (* await request.json() *)
  env : string -> option string;           (* process.env[name]; None is undefined *)
  clock : nat -> string;                   (* n-th new Date().toISOString() *)
  fetch : string -> RequestInit -> exn + SinkResponse   (* await fetch(url, init) *)
}.

Section Handler.

Variable P : Platform.
Variable w : World.

Definition context_log (args : list logarg) : M unit := emit (Log info args).
Definition context_warn (args : list logarg) : M unit := emit (Log warning args).
Definition context_error (args : list logarg) : M unit := emit (Log error args).

(** [v.k], and [const { k } = v]: a [TypeError] on [null] and [undefined]. *)
Definition get (v : value) (k : string) : M value :=
  if nullish v
  then throw (TypeError ("Cannot read properties of null or undefined: " ++ k))
  else ret (prop v k).

(** [a || b], the right operand evaluated only when the left is falsy. *)
Definition orV (a b : M value) : M value :=
  x <- a ;; if truthy x then ret x else b.

Definition orB (a b : M bool) : M bool :=
  x <- a ;; if x then ret true else b.

(** [for (const x of items) { block x }] *)
Fixpoint for_of (items : list value) (block : value -> M unit) : M unit :=
  match items with
  | [] => ret tt
  | x :: rest => block x ;; for_of rest block
  end.

Definition elements (v : value) : list value :=
  match v with VArray items => items | _ => [] end.

(** [new Date().toISOString()] *)
Definition Date_now_toISOString : M string :=
  fun s => (Normal (clock w (ticks s)), mkState (S (ticks s)) (trace s)).

Definition await_json : M value :=
  emit ReadJson ;; lift (request_json w).

Definition await_fetch (url : string) (init : RequestInit) : M SinkResponse :=
  emit (Fetch url init) ;; lift (fetch w url init).

Definition await_text (r : SinkResponse) : M string :=
  emit ReadText ;; lift (sink_text r).

Definition decodeClientPrincipal (headerValue : string) : M value :=
  try_catch
    (let decoded := base64_utf8 P headerValue in
     lift (JSON_parse P decoded))
    (fun _ => ret VNull).

(** The three template literals of the handler: the line, or the exception
    thrown while building it.  The substitutions are converted to strings
    first, then the pieces are concatenated. *)
Definition provider_line (identityProvider : value) : exn + string :=
  match ToString (Number_toString P) (longest_string P) (call_stack P)
                 identityProvider with
  | inl e => inl e
  | inr shown =>
      fits (longest_string P)
           ("saveDuty: 許可されていない identityProvider: " ++ shown)
  end.

Definition refusal_line (paResponse : SinkResponse) (paBody : string)
  : exn + string :=
  fits (longest_string P)
       ("saveDuty: Power Automate が " ++ show_Z (sink_status paResponse)
        ++ " を返しました: " ++ paBody).

Definition accepted_line (paResponse : SinkResponse) : exn + string :=
  fits (longest_string P)
       ("saveDuty: Power Automate 応答 " ++ show_Z (sink_status paResponse)
        ++ " OK").

(** [typeof duty.k !== 'string'] *)
Definition not_a_string (duty : value) (k : string) : M bool :=
  x <- get duty k ;; ret (negb (String.eqb (typeof x) "string")).

(** The statements inside the outer [try]. *)
Definition saveDuty_try : M unit :=
  match nonfalsy (headers_get w "x-ms-client-principal") with
  | None =>
      context_warn [LStr "saveDuty: x-ms-client-principal ヘッダーが見つかりません"] ;;
      return_ (mkResponse 401
        (VObject [("error", VString "Unauthorized: No client principal found")]))
  | Some principalHeader =>
      principal <- decodeClientPrincipal principalHeader ;;
      when (negb (truthy principal)) (
        context_warn [LStr "saveDuty: principal のデコードに失敗しました"] ;;
        return_ (mkResponse 401
          (VObject [("error", VString "Unauthorized: Failed to decode client principal")]))) ;;
      identityProvider <- get principal "identityProvider" ;;
      when (negb (strict_eq_string identityProvider "aad")) (
        line <- lift (provider_line identityProvider) ;;
        context_warn [LStr line] ;;
        return_ (mkResponse 403
          (VObject [("error", VString "Forbidden: AAD authentication required")]))) ;;
      body <- try_catch await_json (fun _ =>
        return_ (mkResponse 400
          (VObject [("error", VString "Bad Request: Invalid JSON body")]))) ;;
      duties <- get body "duties" ;;
      when (negb (Array_isArray duties) || (length (elements duties) =? 0)%nat) (
        return_ (mkResponse 400
          (VObject [("error", VString "Bad Request: duties must be a non-empty array")]))) ;;
      for_of (elements duties) (fun duty =>
        bad <- orB (not_a_string duty "id")
                (orB (not_a_string duty "day") (not_a_string duty "member")) ;;
        when bad (
          return_ (mkResponse 400
            (VObject [("error",
               VString "Bad Request: each duty must have id, day, member as strings")])))) ;;
      match nonfalsy (env w "POWER_AUTOMATE_URL") with
      | None =>
          context_error [LStr "saveDuty: POWER_AUTOMATE_URL 環境変数が未設定です"] ;;
          return_ (mkResponse 500
            (VObject [("error",
               VString "Server configuration error: POWER_AUTOMATE_URL not set")]))
      | Some powerAutomateUrl =>
          savedBy <- orV (get principal "userDetails")
                      (orV (get principal "userId") (ret (VString "unknown"))) ;;
          savedAt <- Date_now_toISOString ;;
          let payload :=
            VObject [("duties", duties); ("savedBy", savedBy);
                     ("savedAt", VString savedAt)] in
          (* JSON.stringify(payload), the argument of context.log: still
             outside the inner try, a throw goes to the outer catch *)
          logged <- lift (JSON_stringify P payload) ;;
          context_log [LStr "saveDuty: Power Automate へ転送します:"; LStr logged] ;;
          try_catch (
            (* JSON.stringify(payload) again, for the body of the request *)
            text <- lift (JSON_stringify P payload) ;;
            paResponse <- await_fetch powerAutomateUrl
              (mkInit "POST" [("Content-Type", "application/json")] text) ;;
            when (negb (ok paResponse)) (
              paBody <- await_text paResponse ;;
              line <- lift (refusal_line paResponse paBody) ;;
              context_error [LStr line] ;;
              return_ (mkResponse 502
                (VObject [("error", VString "Failed to forward to Power Automate")]))) ;;
            line <- lift (accepted_line paResponse) ;;
            context_log [LStr line] ;;
            echoed <- get payload "savedAt" ;;
            return_ (mkResponse 200
              (VObject [("success", VBool true); ("savedAt", echoed)])))
            (fun err =>
              context_error
                [LStr "saveDuty: Power Automate 呼び出しでネットワークエラー:"; LErr err] ;;
              return_ (mkResponse 502
                (VObject [("error", VString "Network error calling Power Automate")])))
      end
  end.

(** The handler: the opening log line, then the outer [try]/[catch]. *)
Definition saveDuty : M unit :=
  context_log [LStr "saveDuty: 呼び出し開始"] ;;
  try_catch saveDuty_try (fun outerErr =>
    context_error [LStr "saveDuty: 予期しないエラー:"; LErr outerErr] ;;
    return_ (mkResponse 500 (VObject [("error", VString "Internal server error")]))).

(** How a call of the handler ends for the host. *)
Inductive outcome : Type :=
| Responded (r : HttpResponse)   (* the promise resolves with a response object *)
| NoResponse                     (* it resolves with undefined *)
| Rejected (e : exn).            (* it rejects *)

Definition invoke (h : M unit) : outcome * state :=
  match h start with
  | (Return r, s) => (Responded r, s)
  | (Normal _, s) => (NoResponse, s)
  | (Throw e, s) => (Rejected e, s)
  end.

Definition result : outcome := fst (invoke saveDuty).
Definition effects : list event := trace (snd (invoke saveDuty)).

(** The requests sent to the sink, in order. *)
Definition sent : list (string * RequestInit) :=
  flat_map (fun e => match e with Fetch u i => [(u, i)] | _ => [] end) effects.

End Handler.


(* --------------------------------------------------------------------- *)
(** *** Vocabulary of the statements about saveDuty *)

(** [{ status: st, jsonBody: { error: msg } }] *)
Definition error_response (st : Z) (msg : string) : HttpResponse :=
  mkResponse st (VObject [("error", VString msg)]).

Definition is_string (v : value) : bool := String.eqb (typeof v) "string".

(** A duty entry whose [id], [day] and [member] are strings. *)
Definition valid_duty (d : value) : bool :=
  is_string (prop d "id") && is_string (prop d "day") && is_string (prop d "member").

(** The request passes the three identity checks and [p] is the decoded
    principal: the header is there and not empty, it decodes to [p], and
    [p.identityProvider] is ['aad']. *)
Definition authenticated (P : Platform) (w : World) (p : value) : Prop :=
  exists h,
    headers_get w "x-ms-client-principal" = Some h /\ h <> "" /\
    JSON_parse P (base64_utf8 P h) = inr p /\
    prop p "identityProvider" = VString "aad".

(** The sink URL is set, and not to the empty string. *)
Definition configured (w : World) (url : string) : Prop :=
  env w "POWER_AUTOMATE_URL" = Some url /\ url <> "".

(** The fallback chain of [savedBy], in the spec's words: [userDetails],
    falling back to [userId], falling back to ["unknown"]. *)
Definition savedBy_of (p : value) : value :=
  if truthy (prop p "userDetails") then prop p "userDetails"
  else if truthy (prop p "userId") then prop p "userId"
  else VString "unknown".

(** The submission payload: the duties with [savedBy] and [savedAt]
    appended, [savedAt] being the first reading of the clock. *)
Definition payload_of (w : World) (p : value) (ds : list value) : value :=
  VObject [("duties", VArray ds); ("savedBy", savedBy_of p);
           ("savedAt", VString (clock w 0))].

(** The POST that carries the JSON text [text]. *)
Definition post_of (text : string) : RequestInit :=
  mkInit "POST" [("Content-Type", "application/json")] text.

(** The body of the validation loop. *)
Definition shape_check (duty : value) : M unit :=
  bad <- orB (not_a_string duty "id")
          (orB (not_a_string duty "day") (not_a_string duty "member")) ;;
  when bad
    (return_ (error_response 400
       "Bad Request: each duty must have id, day, member as strings")).

(** The state in which the outer [try] starts: the opening line is logged,
    the clock has not been read. *)
Definition entered : state :=
  mkState 0 [Log info [LStr "saveDuty: 呼び出し開始"]].

(** A statement list that never runs off its end: it returns or throws. *)
Definition abrupt {A} (m : M A) : Prop :=
  forall s a s', m s <> (Normal a, s').

End SaveDuty.

(* ===================================================================== *)
(** ** The roster list and its drag-end handler *)
(* ===================================================================== *)

Module Roster.

Record DutyItem : Type := mkDuty {
  id : string;
  day : string;
  member : string
}.

Definition INITIAL_DUTIES : list DutyItem :=
  [ mkDuty "mon" "月曜日" "田中 太郎";
    mkDuty "tue" "火曜日" "鈴木 花子";
    mkDuty "wed" "水曜日" "佐藤 一郎";
    mkDuty "thu" "木曜日" "山田 美咲";
    mkDuty "fri" "金曜日" "伊藤 健二" ].

(** The part of a [DragEndEvent] the handler reads: [active.id], and
    [over.id] when [over] is not [null].  The sortable ids are the [id]
    strings of the entries. *)
Record DragEndEvent : Type := mkDragEnd {
  active_id : string;
  over_id : option string
}.

(** A JavaScript array of [A]: an element can be [undefined] ([None]). *)
Definition array (A : Type) : Type := list (option A).

(** [arr.findIndex(p)], counting from [i]; [p] may throw. *)
Fixpoint findIndex_from {A} (p : option A -> exn + bool) (arr : array A) (i : Z)
  : exn + Z :=
  match arr with
  | [] => inr (-1)%Z
  | x :: rest =>
      match p x with
      | inl e => inl e
      | inr true => inr i
      | inr false => findIndex_from p rest (i + 1)%Z
      end
  end.

Definition findIndex {A} (p : option A -> exn + bool) (arr : array A) : exn + Z :=
  findIndex_from p arr 0%Z.

(** [arr.splice(start, deleteCount, ...items)]: the removed elements and
    the array afterwards.  A negative [start] counts from the end; both
    arguments are clamped to the array. *)
Definition splice {A} (arr : array A) (start deleteCount : Z) (items : array A)
  : array A * array A :=
  let len := Z.of_nat (length arr) in
  let actualStart :=
    if (start <? 0)%Z then Z.max (len + start) 0 else Z.min start len in
  let actualDeleteCount := Z.min (Z.max deleteCount 0) (len - actualStart) in
  let i := Z.to_nat actualStart in
  let n := Z.to_nat actualDeleteCount in
  (firstn n (skipn i arr), firstn i arr ++ items ++ skipn (i + n) arr)%list.

(** Modelled from the spec: [arrayMove] is imported from the package
    @dnd-kit/sortable and is not part of the repository's sources; the
    spec describes the operation as one that "relocates one entry to a new
    position in the sequence".  The definition follows the package's
    implementation: copy the array, take the element at [from] out with one
    [splice], put it back at [to] with a second one.  The insertion index
    is computed before the element is taken out, and [splice(from, 1)[0]]
    is [undefined] when nothing was removed. *)
Definition arrayMove {A} (arr : array A) (from to : Z) : array A :=
  let newArray := arr in
  let target := if (to <? 0)%Z then (Z.of_nat (length newArray) + to)%Z else to in
  let (removed, newArray1) := splice newArray from 1 [] in
  let moved := match removed with x :: _ => x | [] => None end in
  snd (splice newArray1 target 0 [moved]).

(** [d => d.id === x]; reading [id] of [undefined] throws. *)
Definition id_is (x : string) (d : option DutyItem) : exn + bool :=
  match d with
  | Some item => inr (String.eqb (id item) x)
  | None => inl (TypeError "Cannot read properties of undefined (reading 'id')")
  end.

(** The state update of [handleDragEnd]: the next value of [duties]. *)
Definition handleDragEnd (prev : array DutyItem) (event : DragEndEvent)
  : exn + array DutyItem :=
  match over_id event with
  | Some over =>
      if negb (String.eqb (active_id event) over) then
        match findIndex (id_is (active_id event)) prev with
        | inl e => inl e
        | inr oldIndex =>
            match findIndex (id_is over) prev with
            | inl e => inl e
            | inr newIndex => inr (arrayMove prev oldIndex newIndex)
            end
        end
      else inr prev
  | None => inr prev
  end.

(** The drag-end events of a session, applied in order. *)
Fixpoint drags (prev : array DutyItem) (events : list DragEndEvent)
  : exn + array DutyItem :=
  match events with
  | [] => inr prev
  | e :: rest =>
      match handleDragEnd prev e with
      | inl x => inl x
      | inr next => drags next rest
      end
  end.


(* --------------------------------------------------------------------- *)
(** *** Vocabulary of the statements about the roster *)

(** The list without its element at index [i]. *)
Definition remove_at {A} (i : nat) (l : list A) : list A :=
  (firstn i l ++ skipn (S i) l)%list.

(** The list with [x] put in at index [j]. *)
Definition insert_at {A} (j : nat) (x : A) (l : list A) : list A :=
  (firstn j l ++ x :: skipn j l)%list.

(** The array that holds the entries of [l], none of them [undefined]. *)
Definition entries (l : list DutyItem) : array DutyItem := map Some l.

(** What the UI delivers: the dragged card is one of the entries. *)
Definition drags_an_entry (l : list DutyItem) (e : DragEndEvent) : Prop :=
  In (active_id e) (map id l).

End Roster.

(* ===================================================================== *)
(** ** A sample runtime and sample requests *)
(* ===================================================================== *)

(** The statements below hold for every runtime and every request.  The
    sample data here gives them concrete inputs: a runtime that decodes
    base64 and reads back the JSON documents of the examples, and the
    requests of the scenarios. *)

Module Sample.

Import SaveDuty.

(** The value of a base64 digit. *)
Definition sextet (c : ascii) : option N :=
  let n := N_of_ascii c in
  if ((65 <=? n) && (n <=? 90))%N then Some (n - 65)%N
  else if ((97 <=? n) && (n <=? 122))%N then Some (n - 71)%N
  else if ((48 <=? n) && (n <=? 57))%N then Some (n + 4)%N
  else if (n =? 43)%N then Some 62%N
  else if (n =? 47)%N then Some 63%N
  else None.

(** The digits up to the padding; other characters are skipped. *)
Fixpoint sextets (s : string) : list N :=
  match s with
  | EmptyString => []
  | String c rest =>
      if Ascii.eqb c "="%char then []
      else match sextet c with
           | Some v => v :: sextets rest
           | None => sextets rest
           end
  end.

Fixpoint octets (l : list N) : string :=
  match l with
  | a :: b :: c :: d :: rest =>
      String (ascii_of_N (a * 4 + b / 16))
        (String (ascii_of_N ((b mod 16) * 16 + c / 4))
           (String (ascii_of_N ((c mod 4) * 64 + d)) (octets rest)))
  | [a; b; c] =>
      String (ascii_of_N (a * 4 + b / 16))
        (String (ascii_of_N ((b mod 16) * 16 + c / 4)) EmptyString)
  | [a; b] => String (ascii_of_N (a * 4 + b / 16)) EmptyString
  | _ => EmptyString
  end.

Definition base64_decode (s : string) : string := octets (sextets s).

Definition quote : string := String (ascii_of_nat 34) EmptyString.
Definition backslash : string := String (ascii_of_nat 92) EmptyString.

Fixpoint escape (s : string) : string :=
  match s with
  | EmptyString => EmptyString
  | String c rest =>
      (if Ascii.eqb c (ascii_of_nat 34) || Ascii.eqb c (ascii_of_nat 92)
       then backslash else EmptyString) ++ String c (escape rest)
  end.

(** No number occurs in the sample documents; [number_text] tells zero
    from the other numbers and no more. *)
Definition number_text (x : float) : string :=
  if PrimFloat.eqb x PrimFloat.zero then "0" else "1".

(** JSON text of a value; a string is escaped for the quote and the
    backslash only. *)
Fixpoint stringify (v : value) : string :=
  match v with
  | VUndefined | VNull => "null"
  | VBool true => "true"
  | VBool false => "false"
  | VNumber x => number_text x
  | VString s => quote ++ escape s ++ quote
  | VArray items =>
      "[" ++
      (fix go (first : bool) (l : list value) : string :=
         match l with
         | [] => ""
         | x :: rest => (if first then "" else ",") ++ stringify x ++ go false rest
         end) true items
      ++ "]"
  | VObject props =>
      "{" ++
      (fix go (first : bool) (l : list (string * value)) : string :=
         match l with
         | [] => ""
         | (k, VUndefined) :: rest => go first rest
         | (k, x) :: rest =>
             (if first then "" else ",") ++ quote ++ escape k ++ quote ++ ":"
             ++ stringify x ++ go false rest
         end) true props
      ++ "}"
  end.

(** How deep arrays and objects are nested in a value. *)
Fixpoint depth (v : value) : N :=
  match v with
  | VArray items =>
      N.succ ((fix deepest (l : list value) : N :=
                 match l with
                 | [] => 0%N
                 | x :: rest => N.max (depth x) (deepest rest)
                 end) items)
  | VObject props =>
      N.succ ((fix deepest (l : list (string * value)) : N :=
                 match l with
                 | [] => 0%N
                 | (_, x) :: rest => N.max (depth x) (deepest rest)
                 end) props)
  | _ => 0%N
  end.

(** The sample runtime has room for ten thousand nested calls, of
    [Array.prototype.join] as of the serialiser, and its longest string
    has 2^29 - 24 code units. *)
Definition stack_room : N := 10000.
Definition string_room : N := 536870888.

(** [JSON.stringify] of the sample runtime: the JSON text, or the
    [RangeError] of a stack that has run out. *)
Definition serialise (v : value) : exn + string :=
  if (depth v <=? stack_room)%N then inr (stringify v)
  else inl (RangeError "Maximum call stack size exceeded").

(** A hundred thousand arrays, one inside the other. *)
Definition deep : value :=
  Pos.iter (fun v => VArray [v]) VNull 100000%positive.

(** The principals of the examples. *)
Definition principal_ab : value :=
  VObject [("identityProvider", VString "aad"); ("userDetails", VString "a@b.com")].

Definition principal_github : value :=
  VObject [("identityProvider", VString "github"); ("userId", VString "u1");
           ("userDetails", VString "octocat")].

Definition principal_odd : value :=
  VObject [("identityProvider", VObject [("toString", VNull)])].

Definition principal_blank : value :=
  VObject [("identityProvider", VString "aad"); ("userId", VString "");
           ("userDetails", VString "")].

Definition principal_id_only : value :=
  VObject [("identityProvider", VString "aad"); ("userId", VString "u-42");
           ("userDetails", VString "")].

(** Their headers: the base64 of their JSON text. *)
Definition header_ab : string :=
  "eyJpZGVudGl0eVByb3ZpZGVyIjoiYWFkIiwidXNlckRldGFpbHMiOiJhQGIuY29tIn0=".
Definition header_github : string :=
  "eyJpZGVudGl0eVByb3ZpZGVyIjoiZ2l0aHViIiwidXNlcklkIjoidTEiLCJ1c2VyRGV0YWlscyI6Im9jdG9jYXQifQ==".
Definition header_odd : string :=
  "eyJpZGVudGl0eVByb3ZpZGVyIjp7InRvU3RyaW5nIjpudWxsfX0=".
Definition header_blank : string :=
  "eyJpZGVudGl0eVByb3ZpZGVyIjoiYWFkIiwidXNlcklkIjoiIiwidXNlckRldGFpbHMiOiIifQ==".
Definition header_id_only : string :=
  "eyJpZGVudGl0eVByb3ZpZGVyIjoiYWFkIiwidXNlcklkIjoidS00MiIsInVzZXJEZXRhaWxzIjoiIn0=".
Definition header_null : string := "bnVsbA==".
Definition header_garbage : string := "%%%".

(** The documents the sample parser reads back. *)
Definition documents : list value :=
  [principal_ab; principal_github; principal_odd; principal_blank;
   principal_id_only; VNull].

Definition parse (s : string) : exn + value :=
  match find (fun v => String.eqb (stringify v) s) documents with
  | Some v => inr v
  | None => inl (SyntaxError "Unexpected token")
  end.

Definition node : Platform :=
  mkPlatform base64_decode parse serialise number_text (N.to_nat stack_room)
             string_room eq_refl.

Definition timestamp (n : nat) : string :=
  match n with
  | 0 => "2024-04-01T09:00:00.000Z"
  | 1 => "2024-04-01T09:00:00.001Z"
  | _ => "2024-04-01T09:00:00.002Z"
  end.

Definition sink_url : string := "https://flow.example/invoke".

(** A request with the given principal header and body, the given value of
    [POWER_AUTOMATE_URL], and a sink that always answers the same. *)
Definition request (header : option string) (json : exn + value)
    (url : option string) (answer : exn + SinkResponse) : World :=
  mkWorld
    (fun name => if String.eqb name "x-ms-client-principal" then header else None)
    json
    (fun name => if String.eqb name "POWER_AUTOMATE_URL" then url else None)
    timestamp
    (fun _ _ => answer).

Definition duty_mon : value :=
  VObject [("id", VString "mon"); ("day", VString "月曜日"); ("member", VString "田中")].


Definition body_of (ds : list value) : value := VObject [("duties", VArray ds)].

Definition unreachable : exn + SinkResponse := inl (TypeError "fetch failed").
Definition no_body : exn + value := inl (SyntaxError "Unexpected end of JSON input").


Definition accepted : exn + SinkResponse := inr (mkSink 200 (inr "")).

(** The scenario of the spec: principal a@b.com, one entry, a sink that
    answers 200. *)
Definition scenario : World :=
  request (Some header_ab) (inr (body_of [duty_mon])) (Some sink_url) accepted.

(** Bodies that are JSON but not a roster. *)
Definition null_body : World :=
  request (Some header_ab) (inr VNull) (Some sink_url) unreachable.
Definition empty_object : World :=
  request (Some header_ab) (inr (VObject [])) (Some sink_url) unreachable.
Definition null_entry : World :=
  request (Some header_ab) (inr (body_of [duty_mon; VNull])) (Some sink_url)
          unreachable.
Definition second_entry_bad : World :=
  request (Some header_ab)
          (inr (body_of [duty_mon; VObject [("id", VString "tue")]; VNull]))
          (Some sink_url) unreachable.

Definition from_github : World :=
  request (Some header_github) no_body None unreachable.
Definition odd_provider : World :=
  request (Some header_odd) no_body None unreachable.

(** Valid requests and a sink that fails. *)
Definition sink_refuses : World :=
  request (Some header_ab) (inr (body_of [duty_mon])) (Some sink_url)
          (inr (mkSink 500 (inr "boom"))).
Definition sink_refuses_unreadable : World :=
  request (Some header_ab) (inr (body_of [duty_mon])) (Some sink_url)
          (inr (mkSink 500 (inl (TypeError "terminated")))).
Definition sink_down : World :=
  request (Some header_ab) (inr (body_of [duty_mon])) (Some sink_url) unreachable.

(** A text of [n] letters, and a sink that refuses with a body as long as
    a string of the sample runtime can be. *)
Definition filler (n : N) : string := N.iter n (String "x"%char) "".
Definition sink_refuses_at_length : World :=
  request (Some header_ab) (inr (body_of [duty_mon])) (Some sink_url)
          (inr (mkSink 500 (inr (filler string_room)))).

(** No sink URL in the configuration. *)
Definition unconfigured : World :=
  request (Some header_ab) (inr (body_of [duty_mon])) None unreachable.
Definition unconfigured_null_entry : World :=
  request (Some header_ab) (inr (body_of [VNull])) None unreachable.
Definition unconfigured_bad_entry : World :=
  request (Some header_ab) (inr (body_of [VObject []])) None unreachable.

(** A principal whose [userDetails] and [userId] are both empty strings. *)
Definition blank_user : World :=
  request (Some header_blank) (inr (body_of [duty_mon])) (Some sink_url) accepted.


(** An entry whose extra field is nested too deep for the serialiser, sent
    to a sink that would accept, and to one that would refuse. *)
Definition duty_mon_deep : value :=
  VObject [("id", VString "mon"); ("day", VString "月曜日"); ("member", VString "田中");
           ("note", deep)].
Definition deep_note : World :=
  request (Some header_ab) (inr (body_of [duty_mon_deep])) (Some sink_url) accepted.
Definition deep_note_refused : World :=
  request (Some header_ab) (inr (body_of [duty_mon_deep])) (Some sink_url)
          (inr (mkSink 500 (inr "boom"))).

(** A drag of the first card onto the fourth, then of the last onto the
    second. *)
Definition two_drags : list Roster.DragEndEvent :=
  [Roster.mkDragEnd "mon" (Some "thu"); Roster.mkDragEnd "fri" (Some "tue")].

End Sample.

(* ===================================================================== *)
(** ** saveDuty as a decision table *)
(* ===================================================================== *)

(** A second description of the handler, without the monad: what it
    answers, what it posts, whether it reads the body and how often it
    reads the clock, by cases on what it is given.  It is proved equal to
    the handler further down and is used to read properties off. *)

Module Table.

Import SaveDuty.

(** The first entry of [duties] that the validation loop objects to. *)
Definition first_invalid (ds : list value) : option value :=
  find (fun d => negb (valid_duty d)) ds.

(** What the checks on the request alone come to: an answer (with whether
    the body was read on the way), or the principal and the duties. *)
Inductive gate : Type :=
| Answered (r : HttpResponse) (read : bool)
| Passed (principal : value) (duties : list value).

Definition internal_error : HttpResponse :=
  error_response 500 "Internal server error".

Definition gates (P : Platform) (header : option string) (json : exn + value)
  : gate :=
  match nonfalsy header with
  | None =>
      Answered (error_response 401 "Unauthorized: No client principal found") false
  | Some h =>
      let principal :=
        match JSON_parse P (base64_utf8 P h) with
        | inr v => v
        | inl _ => VNull
        end in
      if negb (truthy principal) then
        Answered
          (error_response 401 "Unauthorized: Failed to decode client principal")
          false
      else if negb (strict_eq_string (prop principal "identityProvider") "aad") then
        match provider_line P (prop principal "identityProvider") with
        | inl _ => Answered internal_error false
        | inr _ =>
            Answered (error_response 403 "Forbidden: AAD authentication required")
                     false
        end
      else
        match json with
        | inl _ => Answered (error_response 400 "Bad Request: Invalid JSON body") true
        | inr body =>
            if nullish body then Answered internal_error true
            else
              match prop body "duties" with
              | VArray (d :: ds) =>
                  match first_invalid (d :: ds) with
                  | None => Passed principal (d :: ds)
                  | Some bad =>
                      if nullish bad then Answered internal_error true
                      else
                        Answered
                          (error_response 400
                             "Bad Request: each duty must have id, day, member as strings")
                          true
                  end
              | _ =>
                  Answered
                    (error_response 400
                       "Bad Request: duties must be a non-empty array")
                    true
              end
        end
  end.

(** What one invocation shows to the outside. *)
Record summary : Type := mkSummary {
  answer : HttpResponse;
  posts : list (string * RequestInit);
  body_read : bool;
  clock_reads : nat
}.

Definition expected (P : Platform) (w : World) : summary :=
  match gates P (headers_get w "x-ms-client-principal") (request_json w) with
  | Answered r read => mkSummary r [] read 0
  | Passed principal duties =>
      match nonfalsy (env w "POWER_AUTOMATE_URL") with
      | None =>
          mkSummary
            (error_response 500
               "Server configuration error: POWER_AUTOMATE_URL not set")
            [] true 0
      | Some url =>
          match JSON_stringify P (payload_of w principal duties) with
          | inl _ => mkSummary internal_error [] true 1
          | inr text =>
              let post := post_of text in
              mkSummary
                match fetch w url post with
                | inl _ => error_response 502 "Network error calling Power Automate"
                | inr resp =>
                    if ok resp then
                      mkResponse 200
                        (VObject [("success", VBool true);
                                  ("savedAt", VString (clock w 0))])
                    else
                      match sink_text resp with
                      | inr paBody =>
                          match refusal_line P resp paBody with
                          | inr _ =>
                              error_response 502
                                "Failed to forward to Power Automate"
                          | inl _ =>
                              error_response 502
                                "Network error calling Power Automate"
                          end
                      | inl _ =>
                          error_response 502 "Network error calling Power Automate"
                      end
                end
                [(url, post)] true 1
          end
      end
  end.

Definition is_ReadJson (e : event) : bool :=
  match e with ReadJson => true | _ => false end.

(** A line written with [context.warn] or [context.error]. *)
Definition is_alarm (e : event) : bool :=
  match e with
  | Log warning _ | Log error _ => true
  | _ => false
  end.

(** The answers that come with such a line: all but 200 and 400. *)
Definition alarming (r : HttpResponse) : bool :=
  negb ((status r =? 200)%Z || (status r =? 400)%Z).

(** The same observations, and whether a warning or error line was
    written, taken from a run of the handler. *)
Definition observed (P : Platform) (w : World)
  : outcome * list (string * RequestInit) * bool * nat * bool :=
  (result P w, sent P w, existsb is_ReadJson (effects P w),
   ticks (snd (invoke (saveDuty P w))),
   existsb is_alarm (effects P w)).

(** The error answers of the handler: ten fixed responses. *)
Definition error_answers : list HttpResponse :=
  [ error_response 401 "Unauthorized: No client principal found";
    error_response 401 "Unauthorized: Failed to decode client principal";
    error_response 403 "Forbidden: AAD authentication required";
    error_response 400 "Bad Request: Invalid JSON body";
    error_response 400 "Bad Request: duties must be a non-empty array";
    error_response 400 "Bad Request: each duty must have id, day, member as strings";
    error_response 500 "Server configuration error: POWER_AUTOMATE_URL not set";
    error_response 502 "Failed to forward to Power Automate";
    error_response 502 "Network error calling Power Automate";
    error_response 500 "Internal server error" ].

(** The answer of a successful save. *)
Definition success_answer (w : World) : HttpResponse :=
  mkResponse 200
    (VObject [("success", VBool true); ("savedAt", VString (clock w 0))]).

(** How often the handler has read the clock when it is done. *)
Definition clock_readings (P : Platform) (w : World) : nat :=
  ticks (snd (invoke (saveDuty P w))).

(** Every check passes, the URL is set, and [JSON.stringify] throws on the
    payload. *)
Definition payload_throws (P : Platform) (w : World) : Prop :=
  exists p body ds url e,
    authenticated P w p /\ request_json w = inr body /\
    prop body "duties" = VArray ds /\ ds <> [] /\
    forallb valid_duty ds = true /\ configured w url /\
    JSON_stringify P (payload_of w p ds) = inl e.

(** The four ways into the catch-all: the warning line that names the
    provider cannot be built (an object with an own [toString], arrays
    nested deeper than the stack has room for, a text longer than the
    longest string); the body is [null]; the first entry the validation
    objects to is [null]; every check passes, the URL is set, and
    [JSON.stringify] throws on the payload. *)
Definition crashes (P : Platform) (w : World) : Prop :=
  (exists h p e,
     headers_get w "x-ms-client-principal" = Some h /\ h <> "" /\
     JSON_parse P (base64_utf8 P h) = inr p /\ truthy p = true /\
     prop p "identityProvider" <> VString "aad" /\
     provider_line P (prop p "identityProvider") = inl e)
  \/ (exists p body,
        authenticated P w p /\ request_json w = inr body /\ nullish body = true)
  \/ (exists p body good bad rest,
        authenticated P w p /\ request_json w = inr body /\
        prop body "duties" = VArray (good ++ bad :: rest) /\
        forallb valid_duty good = true /\ nullish bad = true)
  \/ payload_throws P w.

End Table.

(* ===================================================================== *)
(** ** The roster page: user lookup and save *)
(* ===================================================================== *)

Module App.

Import Roster.

(** [type SaveStatus = 'idle' | 'saving' | 'success' | 'error'] *)
Inductive SaveStatus : Type := idle | saving | success | error.

(** What the page gets back from a [fetch]: the status, and the outcomes
    of [await res.text()] and [await res.json()]. *)
Record Reply : Type := mkReply {
  reply_status : Z;
  reply_text : exn + string;
  reply_json : exn + value
}.

(** [res.ok] *)
Definition reply_ok (res : Reply) : bool :=
  (200 <=? reply_status res)%Z && (reply_status res <=? 299)%Z.

(** The state of the component.  [username] holds whatever was passed to
    [setUsername], which need not be a string at run time. *)
Record Page : Type := mkPage {
  duties : array DutyItem;
  username : value;
  saveStatus : SaveStatus;
  errorMessage : string
}.

(** The state of the first render. *)
Definition first_render : Page :=
  mkPage (entries INITIAL_DUTIES) (VString "読み込み中...") idle "".

Definition setUsername (u : value) (p : Page) : Page :=
  mkPage (duties p) u (saveStatus p) (errorMessage p).

Definition setSaveStatus (s : SaveStatus) (p : Page) : Page :=
  mkPage (duties p) (username p) s (errorMessage p).

Definition setErrorMessage (m : string) (p : Page) : Page :=
  mkPage (duties p) (username p) (saveStatus p) m.

Definition setDuties (d : array DutyItem) (p : Page) : Page :=
  mkPage d (username p) (saveStatus p) (errorMessage p).

(* --------------------------------------------------------------------- *)
(** *** The user lookup of the mount effect *)

(** The callback passed to [then]: the name to show, or the exception that
    rejects the chain.  The properties read here, [clientPrincipal] and
    [userDetails], are on no built-in prototype either. *)
Definition name_from_reply (res : Reply) : exn + value :=
  if negb (reply_ok res) then inr (VString "（ローカル開発中）")
  else
    match reply_json res with
    | inl e => inl e
    | inr data =>
        if nullish data then
          inl (TypeError "Cannot read properties of null (reading 'clientPrincipal')")
        else if truthy (prop data "clientPrincipal") then
          inr (prop (prop data "clientPrincipal") "userDetails")
        else inr (VString "未認証")
    end.

(** [fetch('/.auth/me').then(...).catch(...)], given how the fetch settles:
    the page once the chain has settled. *)
Definition lookup_user (settled : exn + Reply) (p : Page) : Page :=
  match settled with
  | inr res =>
      match name_from_reply res with
      | inr name => setUsername name p
      | inl _ => setUsername (VString "（ローカル開発中）") p
      end
  | inl _ => setUsername (VString "（ローカル開発中）") p
  end.

(* --------------------------------------------------------------------- *)
(** *** Saving *)

(** [({ id, day, member }) => ({ id, day, member })] on an entry. *)
Definition to_value (d : DutyItem) : value :=
  VObject [("id", VString (id d)); ("day", VString (day d));
           ("member", VString (member d))].

(** [duties.map(({ id, day, member }) => ...)]: destructuring an
    [undefined] element throws. *)
Fixpoint project (arr : array DutyItem) : exn + list value :=
  match arr with
  | [] => inr []
  | Some d :: rest =>
      match project rest with
      | inl e => inl e
      | inr vs => inr (to_value d :: vs)
      end
  | None :: _ =>
      inl (TypeError "Cannot destructure property 'id' of 'undefined'")
  end.

Section Save.

(** [JSON.stringify] of the browser. *)
Variable JSON_stringify : value -> string.

(** The server as the page sees it. *)
Variable server : string -> RequestInit -> exn + Reply.

(** The second argument of the [fetch] in [handleSave]. *)
Definition save_request (arr : array DutyItem) : exn + RequestInit :=
  match project arr with
  | inl e => inl e
  | inr vs =>
      inr (mkInit "POST" [("Content-Type", "application/json")]
             (JSON_stringify (VObject [("duties", VArray vs)])))
  end.

(** [handleSave] up to its first [await]. *)
Definition begin_save (p : Page) : Page :=
  setErrorMessage "" (setSaveStatus saving p).

(** The [catch] block of [handleSave]. *)
Definition network_error (p : Page) : Page :=
  setSaveStatus error (setErrorMessage "ネットワークエラーが発生しました" p).

(** [handleSave] after the [fetch] has settled: the page, and whether the
    three-second timer was set. *)
Definition finish_save (settled : exn + Reply) (p : Page) : Page * bool :=
  match settled with
  | inr res =>
      if reply_ok res then (setSaveStatus success p, true)
      else
        match reply_text res with
        | inr text =>
            (setSaveStatus error
               (setErrorMessage
                  ("サーバーエラー: " ++ show_Z (reply_status res) ++ " " ++ text) p),
             false)
        | inl _ => (network_error p, false)
        end
  | inl _ => (network_error p, false)
  end.

(** One whole run of [handleSave] during which nothing else happens: the
    page afterwards, the requests made, and whether the timer was set. *)
Definition handleSave (p : Page)
  : Page * list (string * RequestInit) * bool :=
  let p1 := begin_save p in
  match save_request (duties p) with
  | inl _ => (network_error p1, [], false)
  | inr init =>
      let (p2, timer) := finish_save (server "/api/saveDuty" init) p1 in
      (p2, [("/api/saveDuty", init)], timer)
  end.

(** The callback of the timer. *)
Definition timer_fires (p : Page) : Page := setSaveStatus idle p.

(** [disabled={saveStatus === 'saving'}] *)
Definition button_disabled (p : Page) : bool :=
  match saveStatus p with saving => true | _ => false end.

(* --------------------------------------------------------------------- *)
(** *** A session: clicks, answers and timers, in any order *)

(** The page together with what is pending: the saves whose [fetch] has not
    settled and the timers that have not fired. *)
Record Session : Type := mkSession {
  page : Page;
  in_flight : nat;
  timers : nat
}.

Inductive Happening : Type :=
| ClickSave                          (* the save button is clicked *)
| FetchSettles (o : exn + Reply)     (* the fetch of a pending save settles *)
| TimerFires.                        (* a pending timer fires *)

(** One happening; [None] when it cannot take place (a click on the
    disabled button, an answer or a timer with nothing pending). *)
Definition happen (s : Session) (h : Happening) : option Session :=
  match h with
  | ClickSave =>
      if button_disabled (page s) then None
      else
        match save_request (duties (page s)) with
        | inl _ =>
            Some (mkSession (network_error (begin_save (page s)))
                            (in_flight s) (timers s))
        | inr _ =>
            Some (mkSession (begin_save (page s)) (S (in_flight s)) (timers s))
        end
  | FetchSettles o =>
      match in_flight s with
      | O => None
      | S n =>
          let (p, timer) := finish_save o (page s) in
          Some (mkSession p n (if timer then S (timers s) else timers s))
      end
  | TimerFires =>
      match timers s with
      | O => None
      | S n => Some (mkSession (timer_fires (page s)) (in_flight s) n)
      end
  end.

Fixpoint happen_all (s : Session) (hs : list Happening) : option Session :=
  match hs with
  | [] => Some s
  | h :: rest =>
      match happen s h with
      | Some s' => happen_all s' rest
      | None => None
      end
  end.

(** A click made while the notice of an earlier success is still showing,
    that is, while its timer is pending. *)
Definition hasty (s : Session) (h : Happening) : bool :=
  match h with
  | ClickSave => negb (timers s =? 0)%nat
  | _ => false
  end.

(** No click of the run is hasty. *)
Fixpoint patient (s : Session) (hs : list Happening) : bool :=
  match hs with
  | [] => true
  | h :: rest =>
      negb (hasty s h) &&
      match happen s h with
      | Some s' => patient s' rest
      | None => true
      end
  end.

(** Between two happenings: a request is pending exactly while the
    status is ['saving'], and then no timer is. *)
Definition settled_or_saving (s : Session) : Prop :=
  match saveStatus (page s) with
  | saving => in_flight s = 1 /\ timers s = 0
  | _ => in_flight s = 0
  end.

End Save.

(** The body [handleSave] posts for a roster without holes, as a value. *)
Definition save_body (l : list DutyItem) : value :=
  VObject [("duties", VArray (map to_value l))].

End App.

(* ===================================================================== *)
(** ** More sample requests, and sample sessions of the page *)
(* ===================================================================== *)

Module MoreSamples.

Import SaveDuty Sample App.

(** An authenticated request whose body is not JSON. *)
Definition bad_json : World :=
  request (Some header_ab) no_body (Some sink_url) accepted.

(** A header that is the base64 of the JSON text [null]. *)
Definition null_principal : World :=
  request (Some header_null) (inr (body_of [duty_mon])) (Some sink_url) accepted.

(** The request of [unconfigured_bad_entry], on a server that is
    configured. *)
Definition configured_bad_entry : World :=
  request (Some header_ab) (inr (body_of [VObject []])) (Some sink_url) accepted.

(** The initial roster as the page posts it, arriving authenticated. *)
Definition roster_arrives : World :=
  request (Some header_ab) (inr (save_body Roster.INITIAL_DUTIES)) (Some sink_url)
          accepted.

(** The roster after the two sample drags, arriving authenticated. *)
Definition reordered : list Roster.DutyItem :=
  [ Roster.mkDuty "fri" "金曜日" "伊藤 健二";
    Roster.mkDuty "tue" "火曜日" "鈴木 花子";
    Roster.mkDuty "wed" "水曜日" "佐藤 一郎";
    Roster.mkDuty "thu" "木曜日" "山田 美咲";
    Roster.mkDuty "mon" "月曜日" "田中 太郎" ].

Definition reordered_arrives : World :=
  request (Some header_ab) (inr (save_body reordered)) (Some sink_url) accepted.

(** Answers of the server, as the page sees them. *)
Definition saved : exn + Reply :=
  inr (mkReply 200 (inr "") (inr (VObject [("success", VBool true)]))).
Definition refused : exn + Reply :=
  inr (mkReply 502 (inr "Failed to forward") (inl (SyntaxError "Unexpected token"))).

(** Answers of [/.auth/me]: a session, no session, and no such endpoint. *)
Definition signed_in : exn + Reply :=
  inr (mkReply 200 (inr "")
         (inr (VObject [("clientPrincipal",
                         VObject [("userDetails", VString "a@b.com")])]))).
Definition signed_out : exn + Reply :=
  inr (mkReply 200 (inr "") (inr (VObject [("clientPrincipal", VNull)]))).
Definition not_found : exn + Reply :=
  inr (mkReply 404 (inr "Not Found") (inl (SyntaxError "Unexpected token"))).

(** The page before anything has happened. *)
Definition fresh : Session := mkSession first_render 0 0.

(** The page just after a first successful save. *)
Definition just_saved : Session :=
  mkSession (setSaveStatus success first_render) 0 1.

(** Save, wait for the notice to go away, save again. *)
Definition unhurried : list Happening :=
  [ClickSave; FetchSettles saved; TimerFires; ClickSave; FetchSettles refused].

End MoreSamples.

(* ===================================================================== *)
(** ** Facts about saveDuty *)
(* ===================================================================== *)

Module SaveDutyFacts.

Import SaveDuty Sample.
Local Open Scope js_scope.

(* --------------------------------------------------------------------- *)
(** *** The sample runtime *)

(** Each sample header is the base64 of the JSON text of its principal,
    and is read back as that principal; the last header decodes to no
    JSON text. *)
Lemma sample_headers_decode :
  map base64_decode
      [header_ab; header_github; header_odd; header_blank; header_id_only;
       header_null]
  = map stringify
      [principal_ab; principal_github; principal_odd; principal_blank;
       principal_id_only; VNull]
  /\ map (fun h => JSON_parse node (base64_utf8 node h))
        [header_ab; header_github; header_odd; header_blank; header_id_only;
         header_null; header_garbage]
     = [inr principal_ab; inr principal_github; inr principal_odd;
        inr principal_blank; inr principal_id_only; inr VNull;
        inl (SyntaxError "Unexpected token")].
Proof. split; vm_compute; reflexivity. Qed.

(** The sample runtime serialises the payload of the scenario, and gives
    up on a hundred thousand nested arrays, in [JSON.stringify] as in a
    template literal. *)
Lemma sample_stack_runs_out :
  JSON_stringify node (payload_of scenario principal_ab [duty_mon])
    = inr (stringify (payload_of scenario principal_ab [duty_mon]))
  /\ JSON_stringify node (payload_of deep_note principal_ab [duty_mon_deep])
     = inl (RangeError "Maximum call stack size exceeded")
  /\ provider_line node deep
     = inl (RangeError "Maximum call stack size exceeded").
Proof. split; [reflexivity|]. split; vm_compute; reflexivity. Qed.

(* --------------------------------------------------------------------- *)
(** *** Small facts about values *)

Lemma nonfalsy_some x : x <> "" -> nonfalsy (Some x) = Some x.
Proof. intros H. unfold nonfalsy. destruct (String.eqb_spec x ""); congruence. Qed.

Lemma nonfalsy_none x :
  nonfalsy x = None <-> x = None \/ x = Some "".
Proof.
  destruct x as [s|]; simpl.
  - destruct (String.eqb_spec s ""); subst; split; intros H; auto; try discriminate.
    destruct H as [H|H]; congruence.
  - split; auto.
Qed.

Lemma prop_string_object v k s :
  prop v k = VString s -> nullish v = false /\ truthy v = true.
Proof. destruct v; simpl; try discriminate; auto. Qed.

Lemma prop_array_object v k l :
  prop v k = VArray l -> nullish v = false.
Proof. destruct v; simpl; try discriminate; auto. Qed.

Lemma truthy_not_nullish v : truthy v = true -> nullish v = false.
Proof. destruct v; simpl; congruence. Qed.

Lemma valid_duty_not_nullish d : valid_duty d = true -> nullish d = false.
Proof. destruct d; simpl; try reflexivity; discriminate. Qed.

Lemma not_aad v :
  v <> VString "aad" -> strict_eq_string v "aad" = false.
Proof.
  intros H. destruct v; simpl; try reflexivity.
  destruct (String.eqb_spec s "aad"); [subst; contradiction|reflexivity].
Qed.

Lemma code_units_app a b :
  code_units (a ++ b) = (code_units a + code_units b)%N.
Proof.
  induction a as [|c a IH]; simpl; [reflexivity|]. rewrite IH. lia.
Qed.

(** A status from 200 to 299 is written with three digits. *)
Lemma three_digits z :
  (200 <= z <= 299)%Z -> code_units (show_Z z) = 3%N.
Proof.
  intros Hz.
  assert (Hall : forallb (fun k => (code_units (show_Z (200 + Z.of_nat k)) =? 3)%N)
                         (seq 0 100) = true) by (vm_compute; reflexivity).
  rewrite forallb_forall in Hall.
  specialize (Hall (Z.to_nat (z - 200))).
  replace (200 + Z.of_nat (Z.to_nat (z - 200)))%Z with z in Hall by lia.
  apply N.eqb_eq, Hall, in_seq. lia.
Qed.

(** The line of a successful forward always fits in a string. *)
Lemma accepted_line_fits P resp :
  ok resp = true ->
  accepted_line P resp =
    inr ("saveDuty: Power Automate 応答 " ++ show_Z (sink_status resp) ++ " OK").
Proof.
  intros Hok. unfold accepted_line, fits.
  assert (Hst : (200 <= sink_status resp <= 299)%Z).
  { unfold ok in Hok. apply andb_prop in Hok as [H1 H2].
    apply Z.leb_le in H1, H2. lia. }
  pose proof (longest_string_roomy P) as Hroom. apply N.leb_le in Hroom.
  rewrite !code_units_app, (three_digits _ Hst).
  change (code_units "saveDuty: Power Automate 応答 ") with 28%N.
  change (code_units " OK") with 3%N.
  destruct (N.leb_spec (28 + (3 + 3)) (longest_string P)); [reflexivity|lia].
Qed.

Lemma not_2xx resp :
  ~ (200 <= sink_status resp <= 299)%Z -> ok resp = false.
Proof.
  intros H. unfold ok. apply andb_false_iff.
  destruct (Z.leb_spec 200 (sink_status resp)); [|left; reflexivity].
  destruct (Z.leb_spec (sink_status resp) 299); [|right; reflexivity].
  exfalso; apply H; lia.
Qed.



Lemma code_units_filler n : code_units (filler n) = n.
Proof.
  unfold filler. induction n as [|n IH] using N.peano_ind; [reflexivity|].
  rewrite N.iter_succ. cbn [code_units]. rewrite IH.
  change (units_of_byte "x") with 1%N. lia.
Qed.

(** A body as long as the longest string leaves no room for the rest of
    the error line. *)
Lemma refusal_line_too_long P st n :
  (longest_string P <= n)%N ->
  refusal_line P (mkSink st (inr (filler n))) (filler n)
  = inl (RangeError "Invalid string length").
Proof.
  intros Hn. unfold refusal_line, fits. cbn [sink_status].
  rewrite !code_units_app, code_units_filler.
  assert (Hpos : (0 < code_units "saveDuty: Power Automate が ")%N)
    by (vm_compute; reflexivity).
  match goal with
  | |- (if (?a <=? ?b)%N then _ else _) = _ => destruct (N.leb_spec a b)
  end; [lia|reflexivity].
Qed.

(* --------------------------------------------------------------------- *)
(** *** The pieces of the handler, one at a time *)

Lemma get_defined v k s :
  nullish v = false -> get v k s = (Normal (prop v k), s).
Proof. intros H. unfold get. rewrite H. reflexivity. Qed.

Lemma get_nullish v k s :
  nullish v = true -> exists e, get v k s = (Throw e, s).
Proof. intros H. unfold get. rewrite H. eexists. reflexivity. Qed.

Lemma savedBy_chain p s :
  nullish p = false ->
  orV (get p "userDetails") (orV (get p "userId") (ret (VString "unknown"))) s
  = (Normal (savedBy_of p), s).
Proof.
  intros Hn. unfold orV, get, bind, ret, savedBy_of. rewrite Hn.
  destruct (truthy (prop p "userDetails")); [reflexivity|].
  destruct (truthy (prop p "userId")); reflexivity.
Qed.

Lemma shape_check_valid d s :
  valid_duty d = true -> shape_check d s = (Normal tt, s).
Proof.
  intros H. pose proof (valid_duty_not_nullish d H) as Hn.
  unfold valid_duty, is_string in H.
  apply andb_prop in H as [H H3]. apply andb_prop in H as [H1 H2].
  unfold shape_check, orB, not_a_string, get, bind, when, ret.
  rewrite Hn. cbn -[String.eqb prop typeof]. rewrite H1, H2, H3. reflexivity.
Qed.

Lemma shape_check_invalid d s :
  nullish d = false -> valid_duty d = false ->
  shape_check d s =
  (Return (error_response 400
     "Bad Request: each duty must have id, day, member as strings"), s).
Proof.
  intros Hn H. unfold valid_duty, is_string in H.
  unfold shape_check, orB, not_a_string, get, bind, when, ret, return_.
  rewrite Hn. cbn -[String.eqb prop typeof].
  destruct (typeof (prop d "id") =? "string"); [|reflexivity].
  destruct (typeof (prop d "day") =? "string"); [|reflexivity].
  destruct (typeof (prop d "member") =? "string"); [discriminate|reflexivity].
Qed.

Lemma shape_check_nullish d s :
  nullish d = true -> exists e, shape_check d s = (Throw e, s).
Proof.
  intros Hn. unfold shape_check, orB, not_a_string, get, bind, throw.
  rewrite Hn. eexists. reflexivity.
Qed.

Lemma for_of_all_normal (f : value -> M unit) ds :
  (forall d s, In d ds -> f d s = (Normal tt, s)) ->
  forall s, for_of ds f s = (Normal tt, s).
Proof.
  induction ds as [|d ds IH]; intros Hf s; simpl; [reflexivity|].
  unfold bind. rewrite Hf by (left; reflexivity).
  apply IH. intros d' s' Hin. apply Hf. right; exact Hin.
Qed.

(** The loop leaves at the first element whose body does not finish
    normally; the elements after it are not looked at. *)
Lemma for_of_stops (f : value -> M unit) good bad rest c s s' :
  (forall d s0, In d good -> f d s0 = (Normal tt, s0)) ->
  f bad s = (c, s') -> (forall u, c <> Normal u) ->
  for_of (good ++ bad :: rest) f s = (c, s').
Proof.
  intros Hgood Hbad Hc. induction good as [|g good IH]; simpl.
  - unfold bind. rewrite Hbad.
    destruct c as [u| |]; [destruct (Hc u); reflexivity| |]; reflexivity.
  - unfold bind. rewrite Hgood by (left; reflexivity).
    apply IH. intros d s0 Hin. apply Hgood. right; exact Hin.
Qed.

Lemma validation_passes ds s :
  forallb valid_duty ds = true -> for_of ds shape_check s = (Normal tt, s).
Proof.
  intros H. apply for_of_all_normal. intros d s0 Hin.
  apply shape_check_valid. rewrite forallb_forall in H. apply H, Hin.
Qed.

Lemma validation_fails_fast good bad rest s :
  forallb valid_duty good = true -> valid_duty bad = false -> nullish bad = false ->
  for_of (good ++ bad :: rest) shape_check s =
  (Return (error_response 400
     "Bad Request: each duty must have id, day, member as strings"), s).
Proof.
  intros Hg Hb Hn. apply for_of_stops.
  - intros d s0 Hin. apply shape_check_valid.
    rewrite forallb_forall in Hg. apply Hg, Hin.
  - apply shape_check_invalid; assumption.
  - intros u; discriminate.
Qed.

Lemma validation_throws good bad rest s :
  forallb valid_duty good = true -> nullish bad = true ->
  exists e, for_of (good ++ bad :: rest) shape_check s = (Throw e, s).
Proof.
  intros Hg Hn. destruct (shape_check_nullish bad s Hn) as [e He].
  exists e. apply for_of_stops.
  - intros d s0 Hin. apply shape_check_valid.
    rewrite forallb_forall in Hg. apply Hg, Hin.
  - exact He.
  - intros u; discriminate.
Qed.

Lemma nonempty_length {A} (good : list A) bad rest :
  (length (good ++ bad :: rest) =? 0)%nat = false.
Proof. rewrite length_app. cbn [length]. apply Nat.eqb_neq. lia. Qed.

(* --------------------------------------------------------------------- *)
(** *** Running the handler under assumptions *)

(** One step of evaluation of the monadic code. *)
Ltac js :=
  cbv beta iota zeta delta
    [bind ret return_ throw try_catch when lift emit
     context_log context_warn context_error
     await_json await_fetch await_text decodeClientPrincipal
     Date_now_toISOString elements Array_isArray strict_eq_string
     negb orb andb fst snd ticks trace];
  cbn [app].

(** Open the handler at the start state, the validation loop kept folded. *)
Ltac enter :=
  unfold sent, effects, result, invoke, saveDuty, saveDuty_try, start;
  let f := eval cbv beta delta [shape_check error_response] in shape_check in
  change f with shape_check.

(** The three identity checks pass. *)
Ltac pass_identity H :=
  let h := fresh "h" in let Hh := fresh "Hh" in let Hne := fresh "Hne" in
  let Hp := fresh "Hp" in let Hidp := fresh "Hidp" in
  let Hn := fresh "Hn" in let Ht := fresh "Ht" in
  destruct H as (h & Hh & Hne & Hp & Hidp);
  destruct (prop_string_object _ _ _ Hidp) as [Hn Ht];
  enter; rewrite Hh, (nonfalsy_some h Hne); js;
  rewrite Hp; js; rewrite Ht; js;
  rewrite get_defined by exact Hn; rewrite Hidp; js;
  change ("aad" =? "aad") with true; js.

(** The body parses to a value that is not [null]. *)
Ltac pass_body Hb Hnb :=
  rewrite Hb; js; rewrite get_defined by exact Hnb.

(** [duties] is a non-empty array of valid entries. *)
Ltac pass_shape Hd Hds Hv :=
  rewrite Hd; js;
  match type of Hds with
  | ?l <> [] => destruct l; [congruence|]
  end;
  cbn [length Nat.eqb];
  rewrite validation_passes by exact Hv.

(** The sink URL is set. *)
Ltac pass_config Hc :=
  let Hu := fresh "Hu" in let Hune := fresh "Hune" in
  destruct Hc as (Hu & Hune);
  rewrite Hu, (nonfalsy_some _ Hune);
  rewrite savedBy_chain by assumption; js.

(** [JSON.stringify(payload)] gives a text, both times it is called. *)
Ltac pass_text Hs :=
  unfold payload_of in Hs; rewrite Hs; js.

(** The POSTs are the [fetch] calls of the trace. *)
Lemma In_sent P w url init :
  In (url, init) (sent P w) <-> In (Fetch url init) (effects P w).
Proof.
  unfold sent. rewrite in_flat_map. split.
  - intros (e & He & Hin). destruct e; simpl in Hin; try contradiction.
    destruct Hin as [Hin|[]]. injection Hin as <- <-. exact He.
  - intros H. exists (Fetch url init). split; [exact H|left; reflexivity].
Qed.

(** What is sent once every check has passed and the payload has been
    serialised, whatever the sink answers: one POST, carrying the text. *)
Lemma forwarded_once P w p body ds url text :
  authenticated P w p ->
  request_json w = inr body ->
  prop body "duties" = VArray ds -> ds <> [] -> forallb valid_duty ds = true ->
  configured w url ->
  JSON_stringify P (payload_of w p ds) = inr text ->
  sent P w = [(url, post_of text)].
Proof.
  intros Ha Hb Hd Hds Hv Hc Hs.
  pose proof (prop_array_object _ _ _ Hd) as Hnb.
  unfold post_of.
  pass_identity Ha. pass_body Hb Hnb. pass_shape Hd Hds Hv. pass_config Hc.
  pass_text Hs.
  match goal with
  | |- context [fetch w url ?i] => destruct (fetch w url i) as [e|resp]
  end.
  - reflexivity.
  - js. destruct (ok resp) eqn:Hok; js.
    + rewrite (accepted_line_fits P resp Hok). reflexivity.
    + destruct (sink_text resp) as [e|paBody]; [reflexivity|]. js.
      destruct (refusal_line P resp paBody); reflexivity.
Qed.

(** The answer once every check has passed and the payload has been
    serialised, by what the sink does. *)
Lemma forwarded_answer P w p body ds url text :
  authenticated P w p ->
  request_json w = inr body ->
  prop body "duties" = VArray ds -> ds <> [] -> forallb valid_duty ds = true ->
  configured w url ->
  JSON_stringify P (payload_of w p ds) = inr text ->
  result P w =
    Responded
      match fetch w url (post_of text) with
      | inl _ => error_response 502 "Network error calling Power Automate"
      | inr resp =>
          if ok resp then
            mkResponse 200
              (VObject [("success", VBool true); ("savedAt", VString (clock w 0))])
          else
            match sink_text resp with
            | inr paBody =>
                match refusal_line P resp paBody with
                | inr _ => error_response 502 "Failed to forward to Power Automate"
                | inl _ => error_response 502 "Network error calling Power Automate"
                end
            | inl _ => error_response 502 "Network error calling Power Automate"
            end
      end.
Proof.
  intros Ha Hb Hd Hds Hv Hc Hs.
  pose proof (prop_array_object _ _ _ Hd) as Hnb.
  unfold post_of.
  pass_identity Ha. pass_body Hb Hnb. pass_shape Hd Hds Hv. pass_config Hc.
  pass_text Hs.
  match goal with
  | |- context [fetch w url ?i] => destruct (fetch w url i) as [e|resp]
  end.
  - reflexivity.
  - js. destruct (ok resp) eqn:Hok; js.
    + rewrite (accepted_line_fits P resp Hok). reflexivity.
    + destruct (sink_text resp) as [e|paBody]; [reflexivity|]. js.
      destruct (refusal_line P resp paBody); reflexivity.
Qed.

(** When [JSON.stringify(payload)] throws, the sink is not called and the
    catch-all answers. *)
Lemma not_forwarded P w p body ds url e :
  authenticated P w p ->
  request_json w = inr body ->
  prop body "duties" = VArray ds -> ds <> [] -> forallb valid_duty ds = true ->
  configured w url ->
  JSON_stringify P (payload_of w p ds) = inl e ->
  result P w = Responded (error_response 500 "Internal server error")
  /\ sent P w = [].
Proof.
  intros Ha Hb Hd Hds Hv Hc Hs.
  pose proof (prop_array_object _ _ _ Hd) as Hnb.
  split.
  - pass_identity Ha. pass_body Hb Hnb. pass_shape Hd Hds Hv. pass_config Hc.
    pass_text Hs. reflexivity.
  - pass_identity Ha. pass_body Hb Hnb. pass_shape Hd Hds Hv. pass_config Hc.
    pass_text Hs. reflexivity.
Qed.

(** The POST the handler makes, when it makes one, carries the serialised
    payload. *)
Lemma posted_payload P w p body ds url init :
  authenticated P w p ->
  request_json w = inr body ->
  prop body "duties" = VArray ds -> ds <> [] -> forallb valid_duty ds = true ->
  configured w url ->
  In (Fetch url init) (effects P w) ->
  exists text,
    JSON_stringify P (payload_of w p ds) = inr text /\ init = post_of text.
Proof.
  intros Ha Hb Hd Hds Hv Hc Hin. apply In_sent in Hin.
  destruct (JSON_stringify P (payload_of w p ds)) as [e|text] eqn:Hs.
  - destruct (not_forwarded P w p body ds url e) as [_ Hnone]; try assumption.
    rewrite Hnone in Hin. destruct Hin.
  - rewrite (forwarded_once P w p body ds url text) in Hin by assumption.
    destruct Hin as [Hin|[]]. injection Hin as <-. exists text. auto.
Qed.

(** A payload that passes the validation is answered, and not with a
    400. *)
Lemma validated_not_400 P w p body ds url :
  authenticated P w p ->
  request_json w = inr body ->
  prop body "duties" = VArray ds -> ds <> [] -> forallb valid_duty ds = true ->
  configured w url ->
  exists r, result P w = Responded r /\ status r <> 400%Z.
Proof.
  intros Ha Hb Hd Hds Hv Hc.
  destruct (JSON_stringify P (payload_of w p ds)) as [e|text] eqn:Hs.
  - destruct (not_forwarded P w p body ds url e) as [Hr _]; try assumption.
    eexists. split; [exact Hr|discriminate].
  - eexists. split;
      [exact (forwarded_answer P w p body ds url text Ha Hb Hd Hds Hv Hc Hs)|].
    destruct (fetch w url (post_of text)) as [e|resp]; [discriminate|].
    destruct (ok resp); [discriminate|].
    destruct (sink_text resp) as [e|paBody]; [discriminate|].
    destruct (refusal_line P resp paBody); discriminate.
Qed.


(* --------------------------------------------------------------------- *)
(** *** Every path of the outer try ends in a return or a throw *)

Lemma abrupt_return {A} r : abrupt (@return_ A r).
Proof. intros s a s'. unfold return_. discriminate. Qed.

Lemma abrupt_bind {A B} (m : M A) (k : A -> M B) :
  (forall a, abrupt (k a)) -> abrupt (bind m k).
Proof.
  intros Hk s b s'. unfold bind.
  destruct (m s) as [[a| |] s1]; try discriminate. apply Hk.
Qed.

Lemma abrupt_try {A} (m : M A) (h : exn -> M A) :
  abrupt m -> (forall e, abrupt (h e)) -> abrupt (try_catch m h).
Proof.
  intros Hm Hh s a s'. unfold try_catch.
  destruct (m s) as [[a1| |] s1] eqn:E; try discriminate.
  - exfalso. exact (Hm _ _ _ E).
  - apply Hh.
Qed.

Lemma saveDuty_try_abrupt P w : abrupt (saveDuty_try P w).
Proof.
  unfold saveDuty_try.
  destruct (nonfalsy (headers_get w "x-ms-client-principal")).
  - repeat (apply abrupt_bind; intro).
    destruct (nonfalsy (env w "POWER_AUTOMATE_URL")).
    + repeat (apply abrupt_bind; intro).
      apply abrupt_try.
      * repeat (apply abrupt_bind; intro). apply abrupt_return.
      * intro. apply abrupt_bind; intro. apply abrupt_return.
    + apply abrupt_bind; intro. apply abrupt_return.
  - apply abrupt_bind; intro. apply abrupt_return.
Qed.

(** The handler's result, read off the completion of the outer try. *)
Lemma result_entered P w :
  result P w =
  match saveDuty_try P w entered with
  | (Normal _, _) => NoResponse
  | (Return r, _) => Responded r
  | (Throw _, _) => Responded (error_response 500 "Internal server error")
  end.
Proof.
  unfold result, invoke, saveDuty, bind, try_catch, context_log, context_error,
    emit, return_, start. cbn [ticks trace app].
  fold entered.
  destruct (saveDuty_try P w entered) as [[u| |] s1]; reflexivity.
Qed.

(* --------------------------------------------------------------------- *)
(** *** The success path *)



(* --------------------------------------------------------------------- *)
(** *** The catch-all *)

(** C2.  Whatever the request, the handler ends with a response object: it
    neither resolves without one nor rejects.  When the statements inside
    the outer [try] throw, the response is HTTP 500 with body
    [{error: "Internal server error"}]; when they return, it is what they
    returned. *)
Theorem saveDuty_always_responds P w :
  exists r,
    result P w = Responded r /\
    (forall e s, saveDuty_try P w entered = (Throw e, s) ->
       r = error_response 500 "Internal server error") /\
    (forall r' s, saveDuty_try P w entered = (Return r', s) -> r = r').
Proof.
  rewrite result_entered.
  destruct (saveDuty_try P w entered) as [[u| |] s1] eqn:E.
  - exfalso. exact (saveDuty_try_abrupt P w _ _ _ E).
  - exists r. split; [reflexivity|]. split; intros; congruence.
  - eexists. split; [reflexivity|]. split; intros; congruence.
Qed.

(** The catch-all at work: a body that is the JSON text [null] makes the
    destructuring of [duties] throw. *)
Lemma saveDuty_always_responds_witness :
  (exists e s, saveDuty_try node null_body entered = (Throw e, s))
  /\ result node null_body =
       Responded (error_response 500 "Internal server error").
Proof.
  split.
  - eexists. eexists. reflexivity.
  - destruct (saveDuty_always_responds node null_body) as (r & Hr & Hthrow & _).
    rewrite Hr. f_equal. eapply Hthrow. reflexivity.
Defined.

(* --------------------------------------------------------------------- *)
(** *** The identity checks *)




(** C5, as the code has it.  When the header decodes to a truthy value
    whose [identityProvider] is not exactly ['aad'], and the warning line
    that names it can be built (the template literal does not throw: no
    object with a [toString] of its own, no arrays nested deeper than the
    stack has room for, no text longer than the longest string), the
    response is HTTP 403 with body
    [{error: "Forbidden: AAD authentication required"}], and the body of
    the request is not read. *)
Theorem provider_check P w h p line :
  headers_get w "x-ms-client-principal" = Some h -> h <> "" ->
  JSON_parse P (base64_utf8 P h) = inr p -> truthy p = true ->
  prop p "identityProvider" <> VString "aad" ->
  provider_line P (prop p "identityProvider") = inr line ->
  result P w =
    Responded (error_response 403 "Forbidden: AAD authentication required")
  /\ ~ In ReadJson (effects P w).
Proof.
  intros Hh Hne Hp Ht Hidp Hshow.
  pose proof (truthy_not_nullish _ Ht) as Hn.
  pose proof (not_aad _ Hidp) as Hneq.
  enter. rewrite Hh, (nonfalsy_some h Hne). js.
  rewrite Hp. js. rewrite Ht. js.
  rewrite get_defined by exact Hn.
  unfold strict_eq_string in Hneq. rewrite Hneq. rewrite Hshow. js.
  split; [reflexivity|]. intros [E|[E|[]]]; discriminate.
Qed.

Lemma provider_check_witness :
  result node from_github =
    Responded (error_response 403 "Forbidden: AAD authentication required")
  /\ ~ In ReadJson (effects node from_github).
Proof.
  apply (provider_check node from_github header_github principal_github
           "saveDuty: 許可されていない identityProvider: github").
  - reflexivity.
  - discriminate.
  - reflexivity.
  - reflexivity.
  - discriminate.
  - reflexivity.
Defined.

(** The body the spec names is not the body sent; and a provider that is
    an object with a [toString] property of its own is answered with 500,
    because rendering it into the warning line throws. *)
Lemma provider_check_counterexample :
  (JSON_parse node (base64_utf8 node header_github) = inr principal_github /\
   prop principal_github "identityProvider" <> VString "aad" /\
   result node from_github <>
     Responded (error_response 403 "AAD authentication required"))
  /\ (JSON_parse node (base64_utf8 node header_odd) = inr principal_odd /\
      prop principal_odd "identityProvider" <> VString "aad" /\
      result node odd_provider =
        Responded (error_response 500 "Internal server error")).
Proof.
  repeat split; try reflexivity; try discriminate;
    intros H; vm_compute in H; discriminate H.
Qed.

(* --------------------------------------------------------------------- *)
(** *** The shape validation *)

(** C3, as the code has it.  For a request that passes the identity checks
    and whose body is JSON other than [null]: when [duties] is missing, not
    an array, or empty, the response is HTTP 400 with body
    [{error: "Bad Request: duties must be a non-empty array"}]; when the
    first entry that lacks a string [id], [day] or [member] is not [null],
    the response is HTTP 400 with body
    [{error: "Bad Request: each duty must have id, day, member as strings"}],
    whatever comes after that entry. *)
Theorem shape_validation P w p body :
  authenticated P w p ->
  request_json w = inr body -> nullish body = false ->
  (Array_isArray (prop body "duties") = false \/ prop body "duties" = VArray [] ->
     result P w =
       Responded (error_response 400 "Bad Request: duties must be a non-empty array"))
  /\ (forall good bad rest,
        prop body "duties" = VArray (good ++ bad :: rest) ->
        forallb valid_duty good = true ->
        valid_duty bad = false -> nullish bad = false ->
        result P w =
          Responded (error_response 400
            "Bad Request: each duty must have id, day, member as strings")).
Proof.
  intros Ha Hb Hnb. split.
  - intros Hd.
    pass_identity Ha. pass_body Hb Hnb.
    destruct Hd as [Hd|Hd]; [|rewrite Hd; reflexivity].
    destruct (prop body "duties"); try discriminate Hd; reflexivity.
  - intros good bad rest Hd Hg Hbad Hn.
    pass_identity Ha. pass_body Hb Hnb.
    rewrite Hd. js. rewrite nonempty_length.
    rewrite validation_fails_fast by assumption. reflexivity.
Qed.

Lemma shape_validation_witness :
  result node empty_object =
    Responded (error_response 400 "Bad Request: duties must be a non-empty array")
  /\ result node second_entry_bad =
       Responded (error_response 400
         "Bad Request: each duty must have id, day, member as strings").
Proof.
  assert (Ha : forall json url answer,
             authenticated node (request (Some header_ab) json url answer) principal_ab).
  { intros. exists header_ab. repeat split; try reflexivity. discriminate. }
  split.
  - apply (proj1 (shape_validation node empty_object principal_ab (VObject [])
                    (Ha _ _ _) eq_refl eq_refl)).
    left. reflexivity.
  - apply (proj2 (shape_validation node second_entry_bad principal_ab
                    (body_of [duty_mon; VObject [("id", VString "tue")]; VNull])
                    (Ha _ _ _) eq_refl eq_refl)
             [duty_mon] (VObject [("id", VString "tue")]) [VNull]);
      reflexivity.
Defined.

(** The bodies the spec names are not the bodies sent; and a body that is
    [null], or an entry that is [null], ends in the catch-all. *)
Lemma shape_validation_counterexample :
  (request_json empty_object = inr (VObject []) /\
   prop (VObject []) "duties" = VUndefined /\
   result node empty_object <>
     Responded (error_response 400 "duties must be a non-empty array"))
  /\ (request_json second_entry_bad =
        inr (body_of [duty_mon; VObject [("id", VString "tue")]; VNull]) /\
      valid_duty (VObject [("id", VString "tue")]) = false /\
      result node second_entry_bad <>
        Responded (error_response 400
          "each duty must have id, day, member as strings"))
  /\ (request_json null_body = inr VNull /\
      result node null_body =
        Responded (error_response 500 "Internal server error"))
  /\ (request_json null_entry = inr (body_of [duty_mon; VNull]) /\
      valid_duty VNull = false /\
      result node null_entry =
        Responded (error_response 500 "Internal server error")).
Proof.
  repeat split; try reflexivity; intros H; vm_compute in H; discriminate H.
Qed.

(* --------------------------------------------------------------------- *)
(** *** The configuration check *)

(** C7, as the code has it.  For a request that passes the identity checks,
    when [POWER_AUTOMATE_URL] is absent or empty: a payload that passes the
    shape validation is answered with HTTP 500 and body
    [{error: "Server configuration error: POWER_AUTOMATE_URL not set"}];
    a body that is not JSON, a [duties] that is missing, not an array or
    empty, and a first violating entry that is not [null] are each answered
    with their own 400 all the same, the URL being looked up only after the
    validation. *)
Theorem configuration_check P w p :
  authenticated P w p ->
  env w "POWER_AUTOMATE_URL" = None \/ env w "POWER_AUTOMATE_URL" = Some "" ->
  (forall body ds,
     request_json w = inr body ->
     prop body "duties" = VArray ds -> ds <> [] -> forallb valid_duty ds = true ->
     result P w =
       Responded (error_response 500
         "Server configuration error: POWER_AUTOMATE_URL not set"))
  /\ (forall e,
        request_json w = inl e ->
        result P w = Responded (error_response 400 "Bad Request: Invalid JSON body"))
  /\ (forall body,
        request_json w = inr body -> nullish body = false ->
        Array_isArray (prop body "duties") = false \/ prop body "duties" = VArray [] ->
        result P w =
          Responded (error_response 400 "Bad Request: duties must be a non-empty array"))
  /\ (forall body good bad rest,
        request_json w = inr body ->
        prop body "duties" = VArray (good ++ bad :: rest) ->
        forallb valid_duty good = true ->
        valid_duty bad = false -> nullish bad = false ->
        result P w =
          Responded (error_response 400
            "Bad Request: each duty must have id, day, member as strings")).
Proof.
  intros Ha Hu. apply nonfalsy_none in Hu. repeat split.
  - intros body ds Hb Hd Hds Hv.
    pose proof (prop_array_object _ _ _ Hd) as Hnb.
    pass_identity Ha. pass_body Hb Hnb. pass_shape Hd Hds Hv.
    rewrite Hu. reflexivity.
  - intros e Hb. pass_identity Ha. rewrite Hb. reflexivity.
  - intros body Hb Hnb Hd.
    pass_identity Ha. pass_body Hb Hnb.
    destruct Hd as [Hd|Hd]; [|rewrite Hd; reflexivity].
    destruct (prop body "duties"); try discriminate Hd; reflexivity.
  - intros body good bad rest Hb Hd Hg Hbad Hn.
    pose proof (prop_array_object _ _ _ Hd) as Hnb.
    pass_identity Ha. pass_body Hb Hnb.
    rewrite Hd. js. rewrite nonempty_length.
    rewrite validation_fails_fast by assumption. reflexivity.
Qed.

Lemma configuration_check_witness :
  result node unconfigured =
    Responded (error_response 500
      "Server configuration error: POWER_AUTOMATE_URL not set")
  /\ result node unconfigured_bad_entry =
       Responded (error_response 400
         "Bad Request: each duty must have id, day, member as strings").
Proof.
  assert (Ha : forall json url answer,
             authenticated node (request (Some header_ab) json url answer) principal_ab).
  { intros. exists header_ab. repeat split; try reflexivity. discriminate. }
  split.
  - apply (proj1 (configuration_check node unconfigured principal_ab
                    (Ha _ _ _) (or_introl eq_refl))
             (body_of [duty_mon]) [duty_mon]);
      try reflexivity.
    discriminate.
  - apply (proj2 (proj2 (proj2
             (configuration_check node unconfigured_bad_entry principal_ab
                (Ha _ _ _) (or_introl eq_refl))))
             (body_of [VObject []]) [] (VObject []) []);
      reflexivity.
Defined.

(** The body the spec names is not the body sent; and with the URL
    missing, an entry that is [null] is answered with 500, not 400. *)
Lemma configuration_check_counterexample :
  (env unconfigured "POWER_AUTOMATE_URL" = None /\
   forallb valid_duty [duty_mon] = true /\
   result node unconfigured <>
     Responded (error_response 500 "POWER_AUTOMATE_URL not set"))
  /\ (env unconfigured_null_entry "POWER_AUTOMATE_URL" = None /\
      request_json unconfigured_null_entry = inr (body_of [VNull]) /\
      valid_duty VNull = false /\
      result node unconfigured_null_entry =
        Responded (error_response 500 "Internal server error")).
Proof.
  repeat split; try reflexivity; intros H; vm_compute in H; discriminate H.
Qed.

(* --------------------------------------------------------------------- *)
(** *** The forward *)

(** C6, as the code has it.  For a request that has passed every check and
    whose POST to the sink is made (as it is exactly when [JSON.stringify]
    gives a text for the payload): when the sink answers with a status
    outside 200..299, its body can be read and the error line that quotes
    status and body can be built, the response is HTTP 502 with body
    [{error: "Failed to forward to Power Automate"}], the same for every
    such status and body; when the call to the sink fails ([fetch]
    rejects, the body of a non-2xx answer cannot be read, or building the
    error line from it throws), the response is HTTP 502 with body
    [{error: "Network error calling Power Automate"}]. *)
Theorem forward_failures P w p body ds url init :
  authenticated P w p ->
  request_json w = inr body ->
  prop body "duties" = VArray ds -> ds <> [] -> forallb valid_duty ds = true ->
  configured w url ->
  In (Fetch url init) (effects P w) ->
  (forall resp text line,
     fetch w url init = inr resp ->
     ~ (200 <= sink_status resp <= 299)%Z ->
     sink_text resp = inr text ->
     refusal_line P resp text = inr line ->
     result P w =
       Responded (error_response 502 "Failed to forward to Power Automate"))
  /\ (forall resp e,
        fetch w url init = inr resp ->
        ~ (200 <= sink_status resp <= 299)%Z ->
        sink_text resp = inl e ->
        result P w =
          Responded (error_response 502 "Network error calling Power Automate"))
  /\ (forall resp text e,
        fetch w url init = inr resp ->
        ~ (200 <= sink_status resp <= 299)%Z ->
        sink_text resp = inr text ->
        refusal_line P resp text = inl e ->
        result P w =
          Responded (error_response 502 "Network error calling Power Automate"))
  /\ (forall e,
        fetch w url init = inl e ->
        result P w =
          Responded (error_response 502 "Network error calling Power Automate")).
Proof.
  intros Ha Hb Hd Hds Hv Hc Hin.
  destruct (posted_payload P w p body ds url init Ha Hb Hd Hds Hv Hc Hin)
    as (text & Hs & ->).
  rewrite (forwarded_answer P w p body ds url text) by assumption.
  repeat split.
  - intros resp tx line Hf Hst Htx Hline.
    rewrite Hf, (not_2xx _ Hst), Htx, Hline. reflexivity.
  - intros resp e Hf Hst Htx. rewrite Hf, (not_2xx _ Hst), Htx. reflexivity.
  - intros resp tx e Hf Hst Htx Hline.
    rewrite Hf, (not_2xx _ Hst), Htx, Hline. reflexivity.
  - intros e Hf. rewrite Hf. reflexivity.
Qed.

Lemma forward_failures_witness :
  result node sink_refuses =
    Responded (error_response 502 "Failed to forward to Power Automate")
  /\ result node sink_down =
       Responded (error_response 502 "Network error calling Power Automate").
Proof.
  assert (Ha : forall json url answer,
             authenticated node (request (Some header_ab) json url answer) principal_ab).
  { intros. exists header_ab. repeat split; try reflexivity. discriminate. }
  assert (Hc : forall h json answer,
             configured (request h json (Some sink_url) answer) sink_url).
  { intros. split; [reflexivity|discriminate]. }
  assert (Hds : [duty_mon] <> []) by discriminate.
  assert (Hin : forall answer,
             In (Fetch sink_url
                   (post_of (stringify
                      (payload_of scenario principal_ab [duty_mon]))))
                (effects node
                   (request (Some header_ab) (inr (body_of [duty_mon]))
                      (Some sink_url) answer))).
  { intros answer. apply In_sent.
    rewrite (forwarded_once node
               (request (Some header_ab) (inr (body_of [duty_mon]))
                  (Some sink_url) answer)
               principal_ab (body_of [duty_mon]) [duty_mon]
               sink_url
               (stringify (payload_of scenario principal_ab [duty_mon]))
               (Ha _ _ _) eq_refl eq_refl Hds eq_refl (Hc _ _ _) eq_refl).
    left. reflexivity. }
  split.
  - apply (proj1 (forward_failures node sink_refuses principal_ab
                    (body_of [duty_mon]) [duty_mon] sink_url _
                    (Ha _ _ _) eq_refl eq_refl Hds eq_refl (Hc _ _ _) (Hin _))
             (mkSink 500 (inr "boom")) "boom"
             "saveDuty: Power Automate が 500 を返しました: boom").
    + reflexivity.
    + simpl. lia.
    + reflexivity.
    + reflexivity.
  - apply (proj2 (proj2 (proj2 (forward_failures node sink_down principal_ab
                    (body_of [duty_mon]) [duty_mon] sink_url _
                    (Ha _ _ _) eq_refl eq_refl Hds eq_refl (Hc _ _ _) (Hin _))))
             (TypeError "fetch failed")).
    reflexivity.
Defined.

(** The body the spec names is not the body sent; a non-2xx answer whose
    body cannot be read is reported as a network error, and so is one
    whose body is too long to be quoted in the error line; and when
    [JSON.stringify] throws on the payload of a validated request the sink
    is not called at all, the answer being the catch-all 500 whatever the
    sink would have said. *)
Lemma forward_failures_counterexample :
  (sent node sink_refuses =
     [(sink_url,
       post_of (stringify (payload_of sink_refuses principal_ab [duty_mon])))] /\
   fetch sink_refuses sink_url
     (post_of (stringify (payload_of sink_refuses principal_ab [duty_mon])))
     = inr (mkSink 500 (inr "boom")) /\
   result node sink_refuses <> Responded (error_response 502 "Failed to forward"))
  /\ (sent node sink_refuses_unreadable =
        [(sink_url,
          post_of
            (stringify (payload_of sink_refuses_unreadable principal_ab [duty_mon])))] /\
      fetch sink_refuses_unreadable sink_url
        (post_of
           (stringify (payload_of sink_refuses_unreadable principal_ab [duty_mon])))
        = inr (mkSink 500 (inl (TypeError "terminated"))) /\
      result node sink_refuses_unreadable =
        Responded (error_response 502 "Network error calling Power Automate"))
  /\ (sent node sink_refuses_at_length =
        [(sink_url,
          post_of
            (stringify (payload_of sink_refuses_at_length principal_ab [duty_mon])))] /\
      fetch sink_refuses_at_length sink_url
        (post_of
           (stringify (payload_of sink_refuses_at_length principal_ab [duty_mon])))
        = inr (mkSink 500 (inr (filler (longest_string node)))) /\
      code_units (filler (longest_string node)) = longest_string node /\
      result node sink_refuses_at_length =
        Responded (error_response 502 "Network error calling Power Automate"))
  /\ (request_json deep_note_refused = inr (body_of [duty_mon_deep]) /\
      forallb valid_duty [duty_mon_deep] = true /\
      (forall init,
         fetch deep_note_refused sink_url init = inr (mkSink 500 (inr "boom"))) /\
      sent node deep_note_refused = [] /\
      result node deep_note_refused =
        Responded (error_response 500 "Internal server error")).
Proof.
  assert (Ha : forall json url answer,
             authenticated node (request (Some header_ab) json url answer) principal_ab).
  { intros. exists header_ab. repeat split; try reflexivity. discriminate. }
  assert (Hc : forall h json answer,
             configured (request h json (Some sink_url) answer) sink_url).
  { intros. split; [reflexivity|discriminate]. }
  assert (Hds : [duty_mon] <> []) by discriminate.
  split; [|split; [|split]].
  - repeat split; try reflexivity. intros H; vm_compute in H; discriminate H.
  - repeat split; reflexivity.
  - split; [|split; [reflexivity|split; [apply code_units_filler|]]].
    + apply (forwarded_once node sink_refuses_at_length principal_ab
               (body_of [duty_mon]) [duty_mon] sink_url _
               (Ha _ _ _) eq_refl eq_refl Hds eq_refl (Hc _ _ _) eq_refl).
    + rewrite (forwarded_answer node sink_refuses_at_length principal_ab
                 (body_of [duty_mon]) [duty_mon] sink_url _
                 (Ha _ _ _) eq_refl eq_refl Hds eq_refl (Hc _ _ _) eq_refl).
      change (fetch sink_refuses_at_length sink_url
                (post_of
                   (stringify
                      (payload_of sink_refuses_at_length principal_ab [duty_mon]))))
        with (@inr exn SinkResponse (mkSink 500 (inr (filler string_room)))).
      change (ok (mkSink 500 (inr (filler string_room)))) with false.
      cbn [sink_text].
      rewrite (refusal_line_too_long node 500 string_room (N.le_refl _)).
      reflexivity.
  - repeat split; try reflexivity; vm_compute; reflexivity.
Qed.

(* --------------------------------------------------------------------- *)
(** *** What the sink is sent *)

(** C9.  The fallback chain of [savedBy] goes by falsiness: for a request
    that has passed every check and whose principal has a falsy
    [userDetails] (the empty string, for one), the payload carries
    [userId] as [savedBy], and the literal ["unknown"] when [userId] is
    falsy too, whether or not the two fields are present.  It is this
    payload that is handed to [JSON.stringify]: the text it gives is what
    the one POST carries, and when it throws nothing is sent and the
    catch-all answers. *)
Theorem savedBy_falls_back_on_falsy P w p body ds url :
  authenticated P w p ->
  request_json w = inr body ->
  prop body "duties" = VArray ds -> ds <> [] -> forallb valid_duty ds = true ->
  configured w url ->
  truthy (prop p "userDetails") = false ->
  (forall text,
     JSON_stringify P
       (VObject [("duties", VArray ds);
                 ("savedBy",
                  if truthy (prop p "userId") then prop p "userId"
                  else VString "unknown");
                 ("savedAt", VString (clock w 0))]) = inr text ->
     sent P w =
       [(url, mkInit "POST" [("Content-Type", "application/json")] text)])
  /\ (forall e,
        JSON_stringify P
          (VObject [("duties", VArray ds);
                    ("savedBy",
                     if truthy (prop p "userId") then prop p "userId"
                     else VString "unknown");
                    ("savedAt", VString (clock w 0))]) = inl e ->
        sent P w = [] /\
        result P w = Responded (error_response 500 "Internal server error")).
Proof.
  intros Ha Hb Hd Hds Hv Hc Hfalsy.
  assert (Hpay : payload_of w p ds =
                 VObject [("duties", VArray ds);
                          ("savedBy",
                           if truthy (prop p "userId") then prop p "userId"
                           else VString "unknown");
                          ("savedAt", VString (clock w 0))]).
  { unfold payload_of, savedBy_of. rewrite Hfalsy. reflexivity. }
  rewrite <- Hpay. split.
  - intros text Hs. apply (forwarded_once P w p body ds url text); assumption.
  - intros e Hs.
    destruct (not_forwarded P w p body ds url e) as [Hr Hnone]; auto.
Qed.

(** Both fields present and empty: [savedBy] is ["unknown"]. *)
Lemma savedBy_falls_back_on_falsy_witness :
  prop principal_blank "userDetails" = VString "" /\
  prop principal_blank "userId" = VString "" /\
  sent node blank_user =
    [(sink_url, mkInit "POST" [("Content-Type", "application/json")]
        (stringify
           (VObject [("duties", VArray [duty_mon]);
                     ("savedBy", VString "unknown");
                     ("savedAt", VString "2024-04-01T09:00:00.000Z")])))].
Proof.
  split; [reflexivity|]. split; [reflexivity|].
  assert (Ha : authenticated node blank_user principal_blank).
  { exists header_blank. repeat split; try reflexivity. discriminate. }
  assert (Hc : configured blank_user sink_url).
  { split; [reflexivity|discriminate]. }
  assert (Hds : [duty_mon] <> []) by discriminate.
  apply (proj1 (savedBy_falls_back_on_falsy node blank_user principal_blank
                  (body_of [duty_mon]) [duty_mon] sink_url
                  Ha eq_refl eq_refl Hds eq_refl Hc eq_refl)).
  reflexivity.
Defined.




End SaveDutyFacts.

(* ===================================================================== *)
(** ** Facts about the roster *)
(* ===================================================================== *)

Module RosterFacts.

Import Roster Sample.

(* --------------------------------------------------------------------- *)
(** *** Taking an element out and putting it back *)

Section Moves.

Context {A : Type}.

Lemma split_at i (l : list A) x :
  nth_error l i = Some x -> l = (firstn i l ++ x :: skipn (S i) l)%list.
Proof.
  revert l. induction i as [|i IH]; intros [|y l] H; simpl in *; try discriminate.
  - congruence.
  - f_equal. apply IH, H.
Qed.

Lemma remove_at_perm i (l : list A) x :
  nth_error l i = Some x -> Permutation l (x :: remove_at i l).
Proof.
  intros H. rewrite (split_at i l x H) at 1. unfold remove_at.
  symmetry. apply Permutation_middle.
Qed.

Lemma insert_at_perm j x (l : list A) : Permutation (x :: l) (insert_at j x l).
Proof.
  unfold insert_at. rewrite <- (firstn_skipn j l) at 1. apply Permutation_middle.
Qed.

Lemma length_remove_at i (l : list A) :
  (i < length l)%nat -> length (remove_at i l) = (length l - 1)%nat.
Proof.
  intros H. unfold remove_at.
  rewrite length_app, length_firstn, length_skipn. lia.
Qed.

Lemma nth_error_insert_at j x (l : list A) :
  (j <= length l)%nat -> nth_error (insert_at j x l) j = Some x.
Proof.
  intros H. unfold insert_at.
  rewrite nth_error_app2; rewrite length_firstn; [|lia].
  replace (j - Nat.min j (length l))%nat with 0%nat by lia. reflexivity.
Qed.

End Moves.

(** [arrayMove] in terms of the two list operations. *)
Lemma arrayMove_unfold {A} (arr : array A) (from to : Z) x :
  let len := Z.of_nat (length arr) in
  let i := Z.to_nat (if (from <? 0)%Z then len + from else from)%Z in
  (-1 <= from < len)%Z ->
  nth_error arr i = Some x ->
  exists j,
    arrayMove arr from to = insert_at j x (remove_at i arr) /\
    ((0 <= to < len)%Z -> j = Z.to_nat to).
Proof.
  intros len i Hfrom Hx.
  assert (Hi : (i < length arr)%nat) by (apply nth_error_Some; congruence).
  assert (Hstart :
    (if (from <? 0)%Z then Z.max (len + from) 0 else Z.min from len) = Z.of_nat i).
  { unfold i. destruct (Z.ltb_spec from 0); lia. }
  unfold arrayMove, splice. fold len. rewrite Hstart, Nat2Z.id.
  assert (Hcount : Z.to_nat (Z.min (Z.max 1 0) (len - Z.of_nat i)) = 1%nat) by lia.
  rewrite Hcount.
  assert (Hskip : skipn i arr = x :: skipn (S i) arr).
  { pose proof (split_at i arr x Hx) as E.
    rewrite E at 1. rewrite skipn_app, length_firstn.
    replace (i - Nat.min i (length arr))%nat with 0%nat by lia.
    rewrite skipn_all2 by (rewrite length_firstn; lia). reflexivity. }
  rewrite Hskip. cbn [firstn app snd].
  replace (i + 1)%nat with (S i) by lia.
  fold (remove_at i arr).
  set (l1 := remove_at i arr).
  set (target := if (to <? 0)%Z then (len + to)%Z else to).
  set (len1 := Z.of_nat (length l1)).
  set (start := if (target <? 0)%Z then Z.max (len1 + target) 0
                else Z.min target len1).
  assert (Hrange : (0 <= start <= len1)%Z).
  { unfold start. destruct (Z.ltb_spec target 0); lia. }
  exists (Z.to_nat start). split.
  - assert (Hz : Z.to_nat (Z.min (Z.max 0 0) (len1 - start)) = 0%nat) by lia.
    rewrite Hz, Nat.add_0_r. reflexivity.
  - intros Hto. f_equal. unfold start, target.
    assert (Hl1 : len1 = (len - 1)%Z).
    { unfold len1, l1. rewrite length_remove_at by exact Hi. unfold len. lia. }
    destruct (Z.ltb_spec to 0); [lia|].
    destruct (Z.ltb_spec to 0); [lia|]. lia.
Qed.

(* --------------------------------------------------------------------- *)
(** *** The handler on a list of entries *)

Lemma findIndex_from_entries x l i :
  exists r,
    findIndex_from (id_is x) (entries l) i = inr r /\
    ((r = (-1)%Z /\ ~ In x (map id l)) \/
     exists n d, r = (i + Z.of_nat n)%Z /\ nth_error l n = Some d /\ id d = x).
Proof.
  revert i. induction l as [|a l IH]; intros i; simpl.
  - exists (-1)%Z. auto.
  - destruct (String.eqb_spec (id a) x) as [E|E].
    + exists i. split; [reflexivity|]. right. exists 0%nat, a. simpl.
      repeat split; [lia|exact E].
    + destruct (IH (i + 1)%Z) as (r & Hr & Hcase). exists r. split; [exact Hr|].
      destruct Hcase as [[-> Hnot]|(n & d & -> & Hn & Hd)].
      * left. split; [reflexivity|]. intros [H|H]; [exact (E H)|exact (Hnot H)].
      * right. exists (S n), d. simpl. repeat split; [lia|exact Hn|exact Hd].
Qed.

Lemma same_id_same_index l i j d d' :
  NoDup (map id l) ->
  nth_error l i = Some d -> nth_error l j = Some d' -> id d = id d' -> i = j.
Proof.
  intros Hnd Hi Hj E.
  rewrite NoDup_nth_error in Hnd. apply Hnd.
  - rewrite length_map. apply nth_error_Some. congruence.
  - rewrite !nth_error_map, Hi, Hj. simpl. congruence.
Qed.

Lemma arrayMove_entries l (from to : Z) :
  l <> [] -> (-1 <= from < Z.of_nat (length l))%Z ->
  exists l', arrayMove (entries l) from to = entries l' /\ Permutation l l'.
Proof.
  intros Hl Hfrom.
  set (len := Z.of_nat (length (entries l))).
  assert (Hlen : len = Z.of_nat (length l)) by (unfold len, entries; now rewrite length_map).
  set (i := Z.to_nat (if (from <? 0)%Z then len + from else from)%Z).
  assert (Hi : (i < length (entries l))%nat).
  { unfold entries. rewrite length_map. destruct l; [congruence|].
    unfold i. simpl length in *. destruct (Z.ltb_spec from 0); lia. }
  destruct (nth_error (entries l) i) as [x|] eqn:Hx;
    [|apply nth_error_None in Hx; lia].
  destruct (arrayMove_unfold (entries l) from to x) as (j & Hmove & _);
    [fold len; lia|exact Hx|].
  assert (Hperm : Permutation (entries l) (arrayMove (entries l) from to)).
  { rewrite Hmove. etransitivity; [apply (remove_at_perm i _ x Hx)|].
    apply insert_at_perm. }
  symmetry in Hperm. apply Permutation_map_inv in Hperm.
  destruct Hperm as (l' & Hl' & Hp). exists l'. split; [exact Hl'|exact Hp].
Qed.

Lemma handleDragEnd_entries l e :
  l <> [] ->
  exists l', handleDragEnd (entries l) e = inr (entries l') /\ Permutation l l'.
Proof.
  intros Hl. unfold handleDragEnd.
  destruct (over_id e) as [over|]; [|exists l; split; [reflexivity|apply Permutation_refl]].
  destruct (negb (active_id e =? over)); [|exists l; split; [reflexivity|apply Permutation_refl]].
  unfold findIndex.
  destruct (findIndex_from_entries (active_id e) l 0) as (r1 & -> & H1).
  destruct (findIndex_from_entries over l 0) as (r2 & -> & H2).
  destruct (arrayMove_entries l r1 r2 Hl) as (l' & Hm & Hp).
  - destruct H1 as [[-> _]|(n & d & -> & Hn & _)].
    + destruct l; [congruence|]. simpl length. lia.
    + assert (n < length l)%nat by (apply nth_error_Some; congruence). lia.
  - exists l'. rewrite Hm. split; [reflexivity|exact Hp].
Qed.

Lemma drags_entries l events :
  l <> [] ->
  exists l', drags (entries l) events = inr (entries l') /\ Permutation l l'.
Proof.
  revert l. induction events as [|e events IH]; intros l Hl; simpl.
  - exists l. split; [reflexivity|apply Permutation_refl].
  - destruct (handleDragEnd_entries l e Hl) as (l1 & -> & Hp1).
    assert (Hl1 : l1 <> []).
    { intros ->. apply Permutation_sym, Permutation_nil in Hp1. contradiction. }
    destruct (IH l1 Hl1) as (l2 & -> & Hp2).
    exists l2. split; [reflexivity|]. etransitivity; eassumption.
Qed.

Lemma handleDragEnd_position l e i k d t :
  NoDup (map id l) ->
  nth_error l i = Some d -> nth_error l k = Some t ->
  active_id e = id d -> over_id e = Some (id t) ->
  exists l', handleDragEnd (entries l) e = inr (entries l') /\ nth_error l' k = Some d.
Proof.
  intros Hnd Hi Hk Ha Ho.
  assert (Hl : l <> []) by (intros ->; destruct i; discriminate).
  assert (Hklt : (k < length l)%nat) by (apply nth_error_Some; congruence).
  unfold handleDragEnd. rewrite Ho, Ha.
  destruct (String.eqb_spec (id d) (id t)) as [E|E]; cbn [negb].
  - exists l. split; [reflexivity|].
    rewrite <- (same_id_same_index l i k d t Hnd Hi Hk E). exact Hi.
  - unfold findIndex.
    destruct (findIndex_from_entries (id d) l 0) as (r1 & -> & H1).
    destruct (findIndex_from_entries (id t) l 0) as (r2 & -> & H2).
    assert (Hin : forall n x, nth_error l n = Some x -> In (id x) (map id l)).
    { intros n x Hn. apply in_map. exact (nth_error_In _ _ Hn). }
    destruct H1 as [[_ Hnot]|(n1 & d1 & -> & Hn1 & Hd1)];
      [exfalso; exact (Hnot (Hin _ _ Hi))|].
    destruct H2 as [[_ Hnot]|(n2 & d2 & -> & Hn2 & Hd2)];
      [exfalso; exact (Hnot (Hin _ _ Hk))|].
    assert (n1 = i) by (eapply same_id_same_index; eauto). subst n1.
    assert (n2 = k) by (eapply same_id_same_index; eauto). subst n2.
    rewrite !Z.add_0_l.
    assert (Hilt : (i < length l)%nat) by (apply nth_error_Some; congruence).
    assert (Hlen : length (entries l) = length l) by apply length_map.
    assert (Hx : nth_error (entries l) i = Some (Some d)).
    { unfold entries. rewrite nth_error_map, Hi. reflexivity. }
    pose proof (arrayMove_unfold (entries l) (Z.of_nat i) (Z.of_nat k) (Some d)) as Hmove.
    cbv zeta in Hmove.
    replace (Z.to_nat (if (Z.of_nat i <? 0)%Z
                       then Z.of_nat (length (entries l)) + Z.of_nat i
                       else Z.of_nat i)) with i in Hmove
      by (destruct (Z.ltb_spec (Z.of_nat i) 0); lia).
    destruct Hmove as (j & Hmove & Hj); [lia|exact Hx|].
    rewrite Hj, Nat2Z.id in Hmove by lia.
    destruct (arrayMove_entries l (Z.of_nat i) (Z.of_nat k) Hl) as (l' & Hl' & _);
      [lia|].
    exists l'. split; [rewrite Hl'; reflexivity|].
    assert (Hk' : nth_error (entries l') k = Some (Some d)).
    { rewrite <- Hl', Hmove. apply nth_error_insert_at.
      rewrite length_remove_at; lia. }
    unfold entries in Hk'. rewrite nth_error_map in Hk'.
    destruct (nth_error l' k); simpl in Hk'; congruence.
Qed.

(** C8.  Take a list of entries with distinct ids.  After any number of
    drag-end events, each dragging one of the entries, the list is a
    permutation of the original one: the same entries, none lost and none
    twice.  And after a single event that drags the entry [d] onto the
    entry at position [k], [d] is at position [k]. *)
Theorem reordering_is_a_permutation (l : list DutyItem) :
  NoDup (map id l) ->
  (forall events,
     Forall (drags_an_entry l) events ->
     exists l',
       drags (entries l) events = inr (entries l') /\
       Permutation l l' /\ length l' = length l /\ NoDup (map id l'))
  /\ (forall e i k d t,
        nth_error l i = Some d -> nth_error l k = Some t ->
        active_id e = id d -> over_id e = Some (id t) ->
        exists l',
          handleDragEnd (entries l) e = inr (entries l') /\
          nth_error l' k = Some d).
Proof.
  intros Hnd. split.
  - intros events Hev.
    destruct events as [|e events].
    + exists l. simpl. repeat split; auto.
    + assert (Hl : l <> []).
      { inversion Hev as [|? ? He _]; subst. unfold drags_an_entry in He.
        intros ->. exact He. }
      destruct (drags_entries l (e :: events) Hl) as (l' & Hrun & Hp).
      exists l'. repeat split; [exact Hrun|exact Hp| |].
      * symmetry. apply Permutation_length, Hp.
      * eapply Permutation_NoDup; [|exact Hnd]. apply Permutation_map, Hp.
  - intros e i k d t. apply handleDragEnd_position. exact Hnd.
Qed.

(** The first card dragged onto the fourth, then the last onto the second,
    starting from the initial roster. *)
Lemma reordering_is_a_permutation_witness :
  (exists l',
     drags (entries INITIAL_DUTIES) two_drags = inr (entries l') /\
     Permutation INITIAL_DUTIES l' /\
     length l' = length INITIAL_DUTIES /\ NoDup (map id l'))
  /\ (exists l',
        handleDragEnd (entries INITIAL_DUTIES) (mkDragEnd "mon" (Some "thu"))
          = inr (entries l') /\
        nth_error l' 3 = Some (mkDuty "mon" "月曜日" "田中 太郎")).
Proof.
  assert (Hnd : NoDup (map id INITIAL_DUTIES)).
  { simpl. repeat constructor; simpl; intuition discriminate. }
  destruct (reordering_is_a_permutation INITIAL_DUTIES Hnd) as [Hperm Hpos].
  split.
  - apply Hperm. unfold two_drags, drags_an_entry.
    apply Forall_cons; [simpl; auto 10|].
    apply Forall_cons; [simpl; auto 10|].
    apply Forall_nil.
  - apply (Hpos (mkDragEnd "mon" (Some "thu")) 0%nat 3%nat
             (mkDuty "mon" "月曜日" "田中 太郎") (mkDuty "thu" "木曜日" "山田 美咲"));
      reflexivity.
Defined.

End RosterFacts.

(* ===================================================================== *)
(** ** Facts about saveDuty, read off its decision table *)
(* ===================================================================== *)

Module TableFacts.

Import SaveDuty SaveDutyFacts Table Sample MoreSamples.
Local Open Scope js_scope.

Lemma first_invalid_none ds :
  first_invalid ds = None -> forallb valid_duty ds = true.
Proof.
  unfold first_invalid. induction ds as [|d ds IH]; simpl; [reflexivity|].
  destruct (valid_duty d); simpl; [exact IH|discriminate].
Qed.

Lemma first_invalid_some ds bad :
  first_invalid ds = Some bad ->
  exists good rest,
    ds = (good ++ bad :: rest)%list /\
    forallb valid_duty good = true /\ valid_duty bad = false.
Proof.
  unfold first_invalid. induction ds as [|d ds IH]; simpl; [discriminate|].
  destruct (valid_duty d) eqn:Hd; simpl.
  - intros H. destruct (IH H) as (good & rest & -> & Hg & Hb).
    exists (d :: good), rest. simpl. rewrite Hd, Hg. auto.
  - intros [= <-]. exists [], ds. auto.
Qed.

Lemma is_aad v : strict_eq_string v "aad" = true -> v = VString "aad".
Proof.
  destruct v; simpl; try discriminate.
  intros H. apply String.eqb_eq in H. congruence.
Qed.

(** The handler and the table agree on every request. *)
Lemma handler_is_table P w :
  observed P w =
    (Responded (answer (expected P w)), posts (expected P w),
     body_read (expected P w), clock_reads (expected P w),
     alarming (answer (expected P w))).
Proof.
  unfold observed, expected, gates.
  destruct (nonfalsy (headers_get w "x-ms-client-principal")) as [h|] eqn:Hnf.
  2:{ enter. rewrite Hnf. reflexivity. }
  assert (Hh : headers_get w "x-ms-client-principal" = Some h /\ h <> "").
  { destruct (headers_get w "x-ms-client-principal") as [x|]; simpl in Hnf;
      [|discriminate].
    destruct (String.eqb_spec x ""); [discriminate|]. split; congruence. }
  destruct Hh as [Hh Hne].
  destruct (JSON_parse P (base64_utf8 P h)) as [e|p] eqn:Hp.
  { enter. rewrite Hnf. js. rewrite Hp. reflexivity. }
  destruct (truthy p) eqn:Ht; cbn [negb].
  2:{ enter. rewrite Hnf. js. rewrite Hp. js. rewrite Ht. reflexivity. }
  pose proof (truthy_not_nullish _ Ht) as Hn.
  destruct (strict_eq_string (prop p "identityProvider") "aad") eqn:Hidp; cbn [negb].
  2:{ enter. rewrite Hnf. js. rewrite Hp. js. rewrite Ht. js.
      rewrite get_defined by exact Hn.
      unfold strict_eq_string in Hidp. rewrite Hidp.
      destruct (provider_line P (prop p "identityProvider")); reflexivity. }
  apply is_aad in Hidp.
  assert (Ha : authenticated P w p) by (exists h; auto).
  destruct (request_json w) as [e|body] eqn:Hb.
  { pass_identity Ha. rewrite Hb. reflexivity. }
  destruct (nullish body) eqn:Hnb.
  { pass_identity Ha. rewrite Hb. js.
    match goal with
    | |- context [get body "duties" ?s] =>
        destruct (get_nullish body "duties" s Hnb) as [e' He']
    end.
    rewrite !He'. reflexivity. }
  destruct (prop body "duties") as [| | | | |ds|] eqn:Hd;
    try (pass_identity Ha; pass_body Hb Hnb; rewrite Hd; reflexivity).
  destruct ds as [|d0 ds'].
  { pass_identity Ha; pass_body Hb Hnb. rewrite Hd. reflexivity. }
  destruct (first_invalid (d0 :: ds')) as [bad|] eqn:Hfi.
  { destruct (first_invalid_some _ _ Hfi) as (good & rest & Hl & Hg & Hbad).
    rewrite Hl in Hd.
    destruct (nullish bad) eqn:Hnbad.
    - pass_identity Ha. pass_body Hb Hnb. rewrite Hd. js.
      rewrite !nonempty_length.
      match goal with
      | |- context [for_of _ shape_check ?s] =>
          destruct (validation_throws good bad rest s Hg Hnbad) as [e He]
      end.
      rewrite !He. reflexivity.
    - pass_identity Ha. pass_body Hb Hnb. rewrite Hd. js.
      rewrite !nonempty_length.
      rewrite !validation_fails_fast by assumption. reflexivity. }
  pose proof (first_invalid_none _ Hfi) as Hv.
  assert (Hds : d0 :: ds' <> []) by discriminate.
  destruct (nonfalsy (env w "POWER_AUTOMATE_URL")) as [url|] eqn:Hu.
  2:{ pass_identity Ha. pass_body Hb Hnb. rewrite Hd. js.
      cbn [length Nat.eqb]. rewrite !validation_passes by exact Hv.
      rewrite Hu. reflexivity. }
  destruct (JSON_stringify P (payload_of w p (d0 :: ds'))) as [e|text] eqn:Hs;
    unfold payload_of in Hs.
  { pass_identity Ha. pass_body Hb Hnb. rewrite Hd. js.
    cbn [length Nat.eqb]. rewrite !validation_passes by exact Hv.
    rewrite Hu. rewrite !savedBy_chain by assumption. js.
    rewrite !Hs. reflexivity. }
  unfold post_of.
  pass_identity Ha. pass_body Hb Hnb. rewrite Hd. js.
  cbn [length Nat.eqb]. rewrite !validation_passes by exact Hv.
  rewrite Hu. rewrite !savedBy_chain by assumption. js.
  rewrite !Hs. js.
  match goal with
  | |- context [fetch w url ?i] => destruct (fetch w url i) as [e|resp]
  end.
  - reflexivity.
  - js. destruct (ok resp) eqn:Hok; js.
    + rewrite !(accepted_line_fits P resp Hok). reflexivity.
    + destruct (sink_text resp) as [e|paBody]; [reflexivity|]. js.
      destruct (refusal_line P resp paBody); reflexivity.
Qed.


Lemma result_table P w : result P w = Responded (answer (expected P w)).
Proof.
  exact (f_equal (fun o => fst (fst (fst (fst o)))) (handler_is_table P w)).
Qed.

Lemma sent_table P w : sent P w = posts (expected P w).
Proof.
  exact (f_equal (fun o => snd (fst (fst (fst o)))) (handler_is_table P w)).
Qed.

Lemma read_table P w :
  existsb is_ReadJson (effects P w) = body_read (expected P w).
Proof. exact (f_equal (fun o => snd (fst (fst o))) (handler_is_table P w)). Qed.

Lemma ticks_table P w :
  ticks (snd (invoke (saveDuty P w))) = clock_reads (expected P w).
Proof. exact (f_equal (fun o => snd (fst o)) (handler_is_table P w)). Qed.

Lemma alarm_table P w :
  existsb is_alarm (effects P w) = alarming (answer (expected P w)).
Proof. exact (f_equal snd (handler_is_table P w)). Qed.

Lemma In_ReadJson l : In ReadJson l <-> existsb is_ReadJson l = true.
Proof.
  rewrite existsb_exists. split.
  - intros H. exists ReadJson. auto.
  - intros ([] & Hin & Hx); try discriminate. exact Hin.
Qed.

(** The gates of an authenticated request. *)
Lemma gates_authenticated P w p :
  authenticated P w p ->
  gates P (headers_get w "x-ms-client-principal") (request_json w) =
  match request_json w with
  | inl _ => Answered (error_response 400 "Bad Request: Invalid JSON body") true
  | inr body =>
      if nullish body then Answered internal_error true
      else
        match prop body "duties" with
        | VArray (d :: ds) =>
            match first_invalid (d :: ds) with
            | None => Passed p (d :: ds)
            | Some bad =>
                if nullish bad then Answered internal_error true
                else
                  Answered
                    (error_response 400
                       "Bad Request: each duty must have id, day, member as strings")
                    true
            end
        | _ =>
            Answered
              (error_response 400 "Bad Request: duties must be a non-empty array")
              true
        end
  end.
Proof.
  intros (h & Hh & Hne & Hp & Hidp).
  destruct (prop_string_object _ _ _ Hidp) as [Hn Ht].
  unfold gates. rewrite Hh, (nonfalsy_some h Hne), Hp, Ht, Hidp. reflexivity.
Qed.

(** An answer of the gates with the body read, or a pass, comes from an
    authenticated request. *)
Lemma gates_read_authenticated P w :
  match gates P (headers_get w "x-ms-client-principal") (request_json w) with
  | Answered _ read => read = true -> exists p, authenticated P w p
  | Passed p _ => authenticated P w p
  end.
Proof.
  unfold gates.
  destruct (nonfalsy (headers_get w "x-ms-client-principal")) as [h|] eqn:Hnf;
    [|discriminate].
  assert (Hh : headers_get w "x-ms-client-principal" = Some h /\ h <> "").
  { destruct (headers_get w "x-ms-client-principal") as [x|]; simpl in Hnf;
      [|discriminate].
    destruct (String.eqb_spec x ""); [discriminate|]. split; congruence. }
  destruct Hh as [Hh Hne].
  destruct (JSON_parse P (base64_utf8 P h)) as [e|p] eqn:Hp; [discriminate|].
  destruct (truthy p) eqn:Ht; cbn [negb]; [|discriminate].
  destruct (strict_eq_string (prop p "identityProvider") "aad") eqn:Hidp; cbn [negb].
  2:{ destruct (provider_line P (prop p "identityProvider")); discriminate. }
  apply is_aad in Hidp.
  assert (Ha : authenticated P w p) by (exists h; auto).
  destruct (request_json w) as [e|body]; [intros _; eauto|].
  destruct (nullish body); [intros _; eauto|].
  destruct (prop body "duties") as [| | | | |[|d ds]|]; try (intros _; eauto).
  destruct (first_invalid (d :: ds)); [|exact Ha].
  destruct (nullish v); intros _; eauto.
Qed.

(** Case analysis on the innermost scrutinee of the goal. *)
Ltac split_cases :=
  repeat match goal with
         | |- context [match ?x with _ => _ end] =>
             lazymatch x with
             | context [match _ with _ => _ end] => fail
             | _ => destruct x eqn:?
             end
         end.

Lemma expected_answer_cases P w :
  In (answer (expected P w)) error_answers \/
  answer (expected P w) = success_answer w.
Proof.
  unfold expected, gates, error_answers, success_answer, internal_error.
  split_cases; cbn [answer In]; auto 20.
Qed.

(** X1.  Whatever the request, the answer is one of ten fixed error
    responses or the success response: no error body depends on the
    request, the configuration or the sink. *)
Theorem response_is_one_of_eleven P w :
  exists r,
    result P w = Responded r /\ (In r error_answers \/ r = success_answer w).
Proof.
  rewrite result_table. eexists. split; [reflexivity|].
  apply expected_answer_cases.
Qed.

Lemma In_alarm l :
  (exists lvl args, In (Log lvl args) l /\ lvl <> info) <->
  existsb is_alarm l = true.
Proof.
  rewrite existsb_exists. split.
  - intros (lvl & args & Hin & Hl). exists (Log lvl args). split; [exact Hin|].
    destruct lvl; [contradiction| |]; reflexivity.
  - intros ([lvl args| | |] & Hin & Hx); try discriminate.
    exists lvl, args. split; [exact Hin|]. destruct lvl; discriminate.
Qed.

(** X10.  A line is written with [context.warn] or [context.error] exactly
    when the answer has status 401, 403, 500 or 502; the answers 200 and
    400 come with info lines only. *)
Theorem alarm_lines_iff P w :
  (exists lvl args, In (Log lvl args) (effects P w) /\ lvl <> info) <->
  exists r, result P w = Responded r /\ In (status r) [401; 403; 500; 502]%Z.
Proof.
  rewrite In_alarm, alarm_table, result_table.
  pose proof (expected_answer_cases P w) as Hcases.
  set (a := answer (expected P w)) in *.
  split.
  - intros Ha. exists a. split; [reflexivity|].
    destruct Hcases as [Hc|Hc].
    + unfold error_answers in Hc. cbn [In] in Hc.
      repeat (destruct Hc as [<-|Hc]); try contradiction;
        try discriminate Ha; cbn; auto 6.
    + rewrite Hc in Ha. discriminate Ha.
  - intros (r & [= <-] & Hs). unfold alarming.
    cbn [In] in Hs.
    repeat (destruct Hs as [<-|Hs]); try reflexivity. contradiction.
Qed.


Lemma nonfalsy_inv x s : nonfalsy x = Some s -> x = Some s /\ s <> "".
Proof.
  destruct x as [y|]; simpl; [|discriminate].
  destruct (String.eqb_spec y ""); [discriminate|]. intros [= <-]. auto.
Qed.

(** The gates let pass exactly the authenticated requests whose body has
    a non-empty [duties] array of valid entries. *)
Lemma gates_passed P w p ds :
  gates P (headers_get w "x-ms-client-principal") (request_json w) = Passed p ds ->
  authenticated P w p /\
  exists body,
    request_json w = inr body /\ prop body "duties" = VArray ds /\
    ds <> [] /\ forallb valid_duty ds = true.
Proof.
  unfold gates.
  destruct (nonfalsy (headers_get w "x-ms-client-principal")) as [h|] eqn:Hnf;
    [|discriminate].
  destruct (nonfalsy_inv _ _ Hnf) as [Hh Hne].
  destruct (JSON_parse P (base64_utf8 P h)) as [e|p0] eqn:Hp; [discriminate|].
  destruct (truthy p0) eqn:Ht; cbn [negb]; [|discriminate].
  destruct (strict_eq_string (prop p0 "identityProvider") "aad") eqn:Hidp;
    cbn [negb].
  2:{ destruct (provider_line P (prop p0 "identityProvider")); discriminate. }
  apply is_aad in Hidp.
  destruct (request_json w) as [e|body] eqn:Hb; [discriminate|].
  destruct (nullish body) eqn:Hnb; [discriminate|].
  destruct (prop body "duties") as [| | | | |[|d ds0]|] eqn:Hd; try discriminate.
  destruct (first_invalid (d :: ds0)) as [bad|] eqn:Hfi.
  { destruct (nullish bad); discriminate. }
  intros [= <- <-]. split; [exists h; auto|].
  exists body. repeat split; auto; [discriminate|].
  apply first_invalid_none, Hfi.
Qed.

Lemma first_invalid_valid ds :
  forallb valid_duty ds = true -> first_invalid ds = None.
Proof.
  unfold first_invalid. induction ds as [|d ds IH]; simpl; [reflexivity|].
  intros H. apply andb_prop in H as [H1 H2]. rewrite H1. simpl. apply IH, H2.
Qed.

Lemma passed_gates P w p body ds :
  authenticated P w p ->
  request_json w = inr body -> prop body "duties" = VArray ds ->
  ds <> [] -> forallb valid_duty ds = true ->
  gates P (headers_get w "x-ms-client-principal") (request_json w) = Passed p ds.
Proof.
  intros Ha Hb Hd Hds Hv.
  rewrite (gates_authenticated P w p Ha), Hb, (prop_array_object _ _ _ Hd), Hd.
  destruct ds as [|d ds]; [congruence|].
  rewrite (first_invalid_valid _ Hv). reflexivity.
Qed.

Lemma posts_expected P w :
  (posts (expected P w) = [] /\ clock_reads (expected P w) = 0)
  \/ (posts (expected P w) = [] /\ clock_reads (expected P w) = 1 /\
      answer (expected P w) = internal_error /\ payload_throws P w)
  \/ (exists url p ds text,
        gates P (headers_get w "x-ms-client-principal") (request_json w)
          = Passed p ds /\
        configured w url /\
        JSON_stringify P (payload_of w p ds) = inr text /\
        posts (expected P w) = [(url, post_of text)] /\
        clock_reads (expected P w) = 1).
Proof.
  unfold expected.
  destruct (gates P _ _) as [r read|p ds] eqn:Hg; [left; auto|].
  destruct (nonfalsy (env w "POWER_AUTOMATE_URL")) as [url|] eqn:Hu; [|left; auto].
  pose proof (nonfalsy_inv _ _ Hu) as Hc.
  destruct (JSON_stringify P (payload_of w p ds)) as [e|text] eqn:Hs.
  - right. left. repeat split; try reflexivity.
    destruct (gates_passed P w p ds Hg) as (Ha & body & Hb & Hd & Hds & Hv).
    exists p, body, ds, url, e. auto 10.
  - right. right. exists url, p, ds, text. auto 10.
Qed.

(** X2.  One invocation makes at most one POST, and only to the configured
    URL, with method POST and the JSON content type.  The clock is read at
    most once: once when a POST is made; once, with no POST and the
    catch-all answer, when every check has passed, the URL is set and
    [JSON.stringify] throws on the payload just built; not at all
    otherwise. *)
Theorem at_most_one_post P w :
  (sent P w = [] /\ clock_readings P w = 0)
  \/ (sent P w = [] /\ clock_readings P w = 1 /\
      result P w = Responded (error_response 500 "Internal server error") /\
      payload_throws P w)
  \/ (exists url text,
        configured w url /\
        sent P w =
          [(url, mkInit "POST" [("Content-Type", "application/json")] text)] /\
        clock_readings P w = 1).
Proof.
  unfold clock_readings. rewrite sent_table, ticks_table, result_table.
  destruct (posts_expected P w)
    as [H|[(Hp & Ht & Hr & Hthrow)|(url & p & ds & text & _ & Hc & _ & Hs & Ht)]].
  - left; exact H.
  - right. left. rewrite Hr. auto.
  - right. right. exists url, text. auto.
Qed.

(** X3.  The sink is contacted exactly when the answer is 200 or 502: an
    answer with any other status means that nothing was sent. *)
Theorem sink_contacted_iff P w :
  sent P w <> [] <->
  exists r, result P w = Responded r /\ (status r = 200%Z \/ status r = 502%Z).
Proof.
  rewrite sent_table, result_table. unfold expected.
  destruct (gates P _ _) as [r read|p ds] eqn:Hg.
  - cbn [posts answer]. split; [intros H; destruct H; reflexivity|].
    intros (r' & [= <-] & Hs). exfalso.
    revert Hg Hs. unfold gates, internal_error, error_response.
    split_cases; intros [= <- _]; cbn [status]; intros [?|?]; discriminate.
  - destruct (nonfalsy (env w "POWER_AUTOMATE_URL")) as [url|]; cbn [posts answer].
    + destruct (JSON_stringify P (payload_of w p ds)) as [e|text];
        cbn [posts answer].
      * split; [intros H; destruct H; reflexivity|].
        intros (r' & [= <-] & [Hs|Hs]); discriminate Hs.
      * split; [intros _|discriminate].
        eexists. split; [reflexivity|].
        destruct (fetch w url _) as [e|resp]; [right; reflexivity|].
        destruct (ok resp); [left; reflexivity|].
        destruct (sink_text resp) as [e|paBody]; [right; reflexivity|].
        destruct (refusal_line P resp paBody); right; reflexivity.
    + split; [intros H; destruct H; reflexivity|].
      intros (r' & [= <-] & [Hs|Hs]); discriminate Hs.
Qed.

(** X4.  The body of the request is read exactly when the three identity
    checks pass. *)
Theorem body_read_iff_authenticated P w :
  In ReadJson (effects P w) <-> exists p, authenticated P w p.
Proof.
  rewrite In_ReadJson, read_table. unfold expected. split.
  - pose proof (gates_read_authenticated P w) as H.
    destruct (gates P _ _) as [r read|p ds]; cbn [body_read].
    + exact H.
    + intros _. eauto.
  - intros (p & Ha). rewrite (gates_authenticated P w p Ha).
    split_cases; reflexivity.
Qed.

(** X5.  A request that passes the identity checks and whose body does not
    parse as JSON is answered with HTTP 400 and
    [{error: "Bad Request: Invalid JSON body"}], and nothing is sent,
    whatever the configuration. *)
Theorem invalid_json_body P w p e :
  authenticated P w p ->
  request_json w = inl e ->
  result P w = Responded (error_response 400 "Bad Request: Invalid JSON body")
  /\ sent P w = [].
Proof.
  intros Ha Hb. rewrite result_table, sent_table. unfold expected.
  rewrite (gates_authenticated P w p Ha), Hb. split; reflexivity.
Qed.

(** X6.  A header that decodes to a falsy JSON value ([null], [false], [0]
    or the empty string) is answered like one that does not decode: HTTP
    401 with [{error: "Unauthorized: Failed to decode client principal"}],
    the body unread. *)
Theorem falsy_principal_is_undecodable P w h p :
  headers_get w "x-ms-client-principal" = Some h -> h <> "" ->
  JSON_parse P (base64_utf8 P h) = inr p ->
  truthy p = false ->
  result P w =
    Responded (error_response 401 "Unauthorized: Failed to decode client principal")
  /\ ~ In ReadJson (effects P w).
Proof.
  intros Hh Hne Hp Ht. rewrite In_ReadJson, result_table, read_table.
  unfold expected, gates. rewrite Hh, (nonfalsy_some h Hne), Hp, Ht.
  split; [reflexivity|discriminate].
Qed.

(** X7.  An answer with status 400, 401 or 403 is decided by the principal
    header and the body alone: a request with the same header and body
    gets the same answer under any configuration, clock and sink. *)
Theorem client_errors_ignore_server_side P w1 w2 r :
  headers_get w1 "x-ms-client-principal" = headers_get w2 "x-ms-client-principal" ->
  request_json w1 = request_json w2 ->
  result P w1 = Responded r ->
  In (status r) [400; 401; 403]%Z ->
  result P w2 = Responded r.
Proof.
  intros Hh Hb. rewrite !result_table. unfold expected. rewrite <- Hh, <- Hb.
  destruct (gates P _ _) as [r0 read|p ds]; [auto|].
  intros [= <-] Hs. exfalso. revert Hs.
  destruct (nonfalsy (env w1 "POWER_AUTOMATE_URL")) as [url|]; cbn [answer].
  - destruct (JSON_stringify P (payload_of w1 p ds)) as [e|text]; cbn [answer];
      [cbn; intuition discriminate|].
    destruct (fetch w1 url _) as [e|resp]; [cbn; intuition discriminate|].
    destruct (ok resp); [cbn; intuition discriminate|].
    destruct (sink_text resp) as [e|paBody]; [cbn; intuition discriminate|].
    destruct (refusal_line P resp paBody); cbn; intuition discriminate.
  - cbn; intuition discriminate.
Qed.


Lemma gates_answer_status P header json r read :
  gates P header json = Answered r read -> In (status r) [400; 401; 403; 500]%Z.
Proof.
  unfold gates, internal_error, error_response.
  split_cases; intros [= <- _]; cbn; auto 6.
Qed.

Lemma ok_inv resp : ok resp = true -> (200 <= sink_status resp <= 299)%Z.
Proof.
  unfold ok. intros H. apply andb_prop in H as [H1 H2].
  apply Z.leb_le in H1, H2. lia.
Qed.

(** X8.  Success is reported only when the sink accepted: an answer with
    status 200 means that one POST was made, that it was answered with a
    status in 200..299, and the body of the answer is
    [{success: true, savedAt}] with the first reading of the clock. *)
Theorem success_only_if_sink_accepted P w r :
  result P w = Responded r -> status r = 200%Z ->
  exists url post resp,
    sent P w = [(url, post)] /\
    fetch w url post = inr resp /\
    (200 <= sink_status resp <= 299)%Z /\
    jsonBody r = VObject [("success", VBool true); ("savedAt", VString (clock w 0))].
Proof.
  rewrite result_table, sent_table. unfold expected.
  destruct (gates P _ _) as [r0 read|p ds] eqn:Hg.
  - intros [= <-] Hs. apply gates_answer_status in Hg. rewrite Hs in Hg.
    cbn in Hg. intuition discriminate.
  - destruct (nonfalsy (env w "POWER_AUTOMATE_URL")) as [url|]; cbn [answer posts];
      [|intros [= <-]; discriminate].
    destruct (JSON_stringify P (payload_of w p ds)) as [e|text];
      cbn [answer posts]; [intros [= <-]; discriminate|].
    destruct (fetch w url (post_of text)) as [e|resp] eqn:Hf;
      [intros [= <-]; discriminate|].
    destruct (ok resp) eqn:Hok.
    + intros [= <-] _. exists url, (post_of text), resp.
      repeat split; try assumption; try reflexivity; apply (ok_inv _ Hok).
    + destruct (sink_text resp) as [e|paBody]; [intros [= <-]; discriminate|].
      destruct (refusal_line P resp paBody); intros [= <-]; discriminate.
Qed.

Lemma first_invalid_app good bad rest :
  forallb valid_duty good = true -> valid_duty bad = false ->
  first_invalid (good ++ bad :: rest) = Some bad.
Proof.
  intros Hg Hb. unfold first_invalid. induction good as [|g good IH]; simpl.
  - rewrite Hb. reflexivity.
  - simpl in Hg. apply andb_prop in Hg as [Hg1 Hg2]. rewrite Hg1. simpl.
    apply IH, Hg2.
Qed.

Lemma nullish_not_valid d : nullish d = true -> valid_duty d = false.
Proof. destruct d; simpl; try discriminate; reflexivity. Qed.

Lemma gates_crash P w read :
  gates P (headers_get w "x-ms-client-principal") (request_json w)
    = Answered internal_error read ->
  crashes P w.
Proof.
  unfold gates.
  destruct (nonfalsy (headers_get w "x-ms-client-principal")) as [h|] eqn:Hnf;
    [|discriminate].
  destruct (nonfalsy_inv _ _ Hnf) as [Hh Hne].
  destruct (JSON_parse P (base64_utf8 P h)) as [e|p] eqn:Hp; [discriminate|].
  destruct (truthy p) eqn:Ht; cbn [negb]; [|discriminate].
  destruct (strict_eq_string (prop p "identityProvider") "aad") eqn:Hidp; cbn [negb].
  2:{ destruct (provider_line P (prop p "identityProvider")) as [e|s]
        eqn:Hts; [|discriminate].
      intros _. left. exists h, p, e. repeat split; try assumption.
      intros E. rewrite E in Hidp. discriminate. }
  apply is_aad in Hidp.
  assert (Ha : authenticated P w p) by (exists h; auto).
  destruct (request_json w) as [e|body] eqn:Hb; [discriminate|].
  destruct (nullish body) eqn:Hnb.
  { intros _. right. left. exists p, body. auto. }
  destruct (prop body "duties") as [| | | | |[|d ds]|] eqn:Hd; try discriminate.
  destruct (first_invalid (d :: ds)) as [bad|] eqn:Hfi; [|discriminate].
  destruct (nullish bad) eqn:Hnbad; [|discriminate].
  intros _. right. right. left.
  destruct (first_invalid_some _ _ Hfi) as (good & rest & Hl & Hg & _).
  exists p, body, good, bad, rest. rewrite <- Hl. auto.
Qed.

(** X9.  The catch-all answer, HTTP 500 with
    [{error: "Internal server error"}], is given in exactly four
    situations: the provider is not ['aad'] and building the warning line
    that names it throws (an object with a [toString] of its own, arrays
    nested deeper than the stack has room for, a text longer than the
    longest string); the body of an
    authenticated request is [null]; the first entry of [duties] that
    fails the validation is [null]; every check passes, the URL is set and
    [JSON.stringify] throws on the payload. *)
Theorem catch_all_exactly P w :
  result P w = Responded (error_response 500 "Internal server error") <->
  crashes P w.
Proof.
  rewrite result_table. fold internal_error. split.
  - unfold expected.
    destruct (gates P _ _) as [r read|p ds] eqn:Hg.
    + intros [= ->]. exact (gates_crash P w read Hg).
    + destruct (nonfalsy (env w "POWER_AUTOMATE_URL")) as [url|] eqn:Hu;
        cbn [answer]; [|intros [= H]; discriminate H].
      destruct (JSON_stringify P (payload_of w p ds)) as [e|text] eqn:Hs;
        cbn [answer].
      * intros _. right. right. right.
        destruct (gates_passed P w p ds Hg) as (Ha & body & Hb & Hd & Hds & Hv).
        exists p, body, ds, url, e.
        pose proof (nonfalsy_inv _ _ Hu) as Hc. auto 10.
      * destruct (fetch w url _) as [e|resp]; [intros [= H]; discriminate H|].
        destruct (ok resp); [intros [= H]; discriminate H|].
        destruct (sink_text resp) as [e|paBody]; [intros [= H]; discriminate H|].
        destruct (refusal_line P resp paBody); intros [= H]; discriminate H.
  - intros [(h & p & e & Hh & Hne & Hp & Ht & Hidp & Hts)|
            [(p & body & Ha & Hb & Hnb)|
             [(p & body & good & bad & rest & Ha & Hb & Hd & Hg & Hnbad)|
              (p & body & ds & url & e & Ha & Hb & Hd & Hds & Hv & Hc & Hs)]]].
    + unfold expected, gates.
      rewrite Hh, (nonfalsy_some h Hne), Hp, Ht, (not_aad _ Hidp), Hts. reflexivity.
    + unfold expected. rewrite (gates_authenticated P w p Ha), Hb, Hnb. reflexivity.
    + unfold expected. rewrite (gates_authenticated P w p Ha), Hb, Hd.
      rewrite (prop_array_object _ _ _ Hd).
      destruct (good ++ bad :: rest)%list as [|d ds] eqn:El;
        [destruct good; discriminate El|].
      rewrite <- El.
      rewrite (first_invalid_app good bad rest Hg (nullish_not_valid _ Hnbad)), Hnbad.
      reflexivity.
    + unfold expected. rewrite (passed_gates P w p body ds Ha Hb Hd Hds Hv).
      destruct Hc as [Hu Hune]. rewrite Hu, (nonfalsy_some _ Hune), Hs.
      reflexivity.
Qed.


(* --------------------------------------------------------------------- *)
(** *** On the sample requests *)

(** A payload nested too deep for [JSON.stringify]: the body is read, the
    clock is read once, nothing is sent, an error line is written and the
    catch-all answers, whether the sink would have accepted or refused. *)
Lemma deep_payload_is_not_sent :
  observed node deep_note = (Responded internal_error, [], true, 1, true)
  /\ observed node deep_note_refused = (Responded internal_error, [], true, 1, true)
  /\ payload_throws node deep_note.
Proof.
  split; [vm_compute; reflexivity|]. split; [vm_compute; reflexivity|].
  exists principal_ab, (body_of [duty_mon_deep]), [duty_mon_deep], sink_url,
    (RangeError "Maximum call stack size exceeded").
  split; [exists header_ab; repeat split; try reflexivity; discriminate|].
  split; [reflexivity|]. split; [reflexivity|]. split; [discriminate|].
  split; [reflexivity|]. split; [split; [reflexivity|discriminate]|].
  vm_compute. reflexivity.
Qed.

Lemma invalid_json_body_witness :
  result node bad_json =
    Responded (error_response 400 "Bad Request: Invalid JSON body")
  /\ sent node bad_json = [].
Proof.
  apply (invalid_json_body node bad_json principal_ab
           (SyntaxError "Unexpected end of JSON input")).
  - exists header_ab. repeat split; try reflexivity. discriminate.
  - reflexivity.
Defined.

Lemma falsy_principal_is_undecodable_witness :
  JSON_parse node (base64_utf8 node header_null) = inr VNull /\
  result node null_principal =
    Responded (error_response 401 "Unauthorized: Failed to decode client principal")
  /\ ~ In ReadJson (effects node null_principal).
Proof.
  split; [reflexivity|].
  apply (falsy_principal_is_undecodable node null_principal header_null VNull).
  - reflexivity.
  - discriminate.
  - reflexivity.
  - reflexivity.
Defined.

(** The 400 of a bad entry is the same with and without the sink URL. *)
Lemma client_errors_ignore_server_side_witness :
  result node configured_bad_entry =
    Responded (error_response 400
      "Bad Request: each duty must have id, day, member as strings").
Proof.
  apply (client_errors_ignore_server_side node unconfigured_bad_entry
           configured_bad_entry).
  - reflexivity.
  - reflexivity.
  - reflexivity.
  - simpl. auto.
Defined.

Lemma success_only_if_sink_accepted_witness :
  exists url post resp,
    sent node scenario = [(url, post)] /\
    fetch scenario url post = inr resp /\
    (200 <= sink_status resp <= 299)%Z /\
    VObject [("success", VBool true); ("savedAt", VString "2024-04-01T09:00:00.000Z")]
    = VObject [("success", VBool true); ("savedAt", VString (clock scenario 0))].
Proof.
  apply (success_only_if_sink_accepted node scenario
           (mkResponse 200
              (VObject [("success", VBool true);
                        ("savedAt", VString "2024-04-01T09:00:00.000Z")]))).
  - reflexivity.
  - reflexivity.
Defined.

End TableFacts.

(* ===================================================================== *)
(** ** Facts about the roster page *)
(* ===================================================================== *)

Module AppFacts.

Import Roster RosterFacts SaveDuty SaveDutyFacts App Sample MoreSamples.

Lemma project_entries l : project (entries l) = inr (map to_value l).
Proof.
  unfold entries. induction l as [|d l IH]; simpl; [reflexivity|].
  rewrite IH. reflexivity.
Qed.

Lemma project_hole arr :
  In None arr -> exists e, project arr = inl e.
Proof.
  induction arr as [|[d|] arr IH]; simpl.
  - intros [].
  - intros [H|H]; [discriminate|]. destruct (IH H) as [e ->]. eauto.
  - intros _. eauto.
Qed.

Lemma to_value_valid d : valid_duty (to_value d) = true.
Proof. reflexivity. Qed.

Lemma roster_valid l : forallb valid_duty (map to_value l) = true.
Proof. induction l as [|d l IH]; simpl; [reflexivity|exact IH]. Qed.

(** X11.  A run of [handleSave] leaves the roster and the user name as they
    were, makes at most one request, and ends either in ['success'] with
    an empty error message and the timer set, which happens only when the
    server answered the one request with a status in 200..299, or in
    ['error'] with a non-empty message and no timer; it never ends in
    ['saving']. *)
Theorem save_ends_in_success_or_error stringify server p :
  let '(p', requests, timer) := handleSave stringify server p in
  duties p' = duties p /\ username p' = username p /\
  (length requests <= 1)%nat /\
  ((saveStatus p' = success /\ errorMessage p' = "" /\ timer = true /\
    exists init resp,
      requests = [("/api/saveDuty", init)] /\
      server "/api/saveDuty" init = inr resp /\
      (200 <= reply_status resp <= 299)%Z)
   \/ (saveStatus p' = error /\ errorMessage p' <> "" /\ timer = false)).
Proof.
  unfold handleSave, save_request.
  destruct (project (duties p)) as [e|vs].
  - cbn. repeat split; auto. right. repeat split; auto. discriminate.
  - set (init := mkInit _ _ _).
    unfold finish_save.
    destruct (server "/api/saveDuty" init) as [e|resp] eqn:Hs.
    + cbn. repeat split; auto. right. repeat split; auto. discriminate.
    + destruct (reply_ok resp) eqn:Hok.
      * cbn. repeat split; auto. left. repeat split; auto.
        exists init, resp. repeat split; auto;
          unfold reply_ok in Hok; apply andb_prop in Hok as [H1 H2];
          apply Z.leb_le in H1, H2; lia.
      * destruct (reply_text resp) as [e|text].
        -- cbn. repeat split; auto. right. repeat split; auto. discriminate.
        -- cbn -[String.append show_Z]. repeat split; auto.
           right. repeat split; auto. cbn -[show_Z]. discriminate.
Qed.

(** X12.  What the page posts for a roster is the roster itself, entry by
    entry with [id], [day] and [member], in a POST with the JSON content
    type; and that body passes the shape validation of [saveDuty]: for an
    authenticated request with the URL set, a non-empty roster is never
    answered with a 400 and, when [JSON.stringify] serialises the payload
    (the roster with [savedBy] and [savedAt]), goes to the sink as it is,
    in one POST; when it throws, nothing is sent and the catch-all
    answers; and an empty roster is answered with the 400 of the empty
    array. *)
Theorem saved_roster_passes_validation stringify P w p url l :
  authenticated P w p ->
  configured w url ->
  request_json w = inr (save_body l) ->
  save_request stringify (entries l) =
    inr (mkInit "POST" [("Content-Type", "application/json")]
           (stringify (save_body l)))
  /\ (l <> [] ->
      (exists r, result P w = Responded r /\ status r <> 400%Z) /\
      (forall text,
         JSON_stringify P (payload_of w p (map to_value l)) = inr text ->
         sent P w =
           [(url, mkInit "POST" [("Content-Type", "application/json")] text)]) /\
      (forall e,
         JSON_stringify P (payload_of w p (map to_value l)) = inl e ->
         sent P w = [] /\
         result P w = Responded (error_response 500 "Internal server error")))
  /\ (l = [] ->
      result P w =
        Responded (error_response 400
          "Bad Request: duties must be a non-empty array")).
Proof.
  intros Ha Hc Hb. split; [|split].
  - unfold save_request. rewrite project_entries. reflexivity.
  - intros Hl.
    assert (Hd : prop (save_body l) "duties" = VArray (map to_value l))
      by reflexivity.
    assert (Hds : map to_value l <> []) by (destruct l; [congruence|discriminate]).
    pose proof (roster_valid l) as Hv.
    split; [|split].
    + apply (validated_not_400 P w p (save_body l) (map to_value l) url);
        assumption.
    + intros text Hs.
      apply (forwarded_once P w p (save_body l) (map to_value l) url text);
        assumption.
    + intros e Hs.
      destruct (not_forwarded P w p (save_body l) (map to_value l) url e);
        auto.
  - intros ->. pass_identity Ha. rewrite Hb. reflexivity.
Qed.

(** X13.  The user lookup touches nothing but the user name, and always
    sets it.  When the answer is OK and its JSON is not [null], the name
    is [userDetails] of the principal if [clientPrincipal] is truthy and
    the not-signed-in label if it is falsy.  In every other case (the
    fetch rejects, the answer is not OK, its body is not JSON, the JSON is
    [null]) it is the local-development label. *)
Theorem lookup_user_always_sets_a_name settled p :
  duties (lookup_user settled p) = duties p /\
  saveStatus (lookup_user settled p) = saveStatus p /\
  errorMessage (lookup_user settled p) = errorMessage p /\
  (forall res data,
     settled = inr res -> (200 <= reply_status res <= 299)%Z ->
     reply_json res = inr data -> nullish data = false ->
     username (lookup_user settled p) =
       if truthy (prop data "clientPrincipal")
       then prop (prop data "clientPrincipal") "userDetails"
       else VString "未認証")
  /\ ((exists e, settled = inl e)
      \/ (exists res,
            settled = inr res /\
            (~ (200 <= reply_status res <= 299)%Z
             \/ (exists e, reply_json res = inl e)
             \/ (exists data, reply_json res = inr data /\ nullish data = true)))
      -> username (lookup_user settled p) = VString "（ローカル開発中）").
Proof.
  assert (Hok : forall res,
            (200 <= reply_status res <= 299)%Z <-> reply_ok res = true).
  { intros res. unfold reply_ok. rewrite andb_true_iff, !Z.leb_le. tauto. }
  split; [|split; [|split; [|split]]].
  - unfold lookup_user. destruct settled as [e|res]; [reflexivity|].
    destruct (name_from_reply res); reflexivity.
  - unfold lookup_user. destruct settled as [e|res]; [reflexivity|].
    destruct (name_from_reply res); reflexivity.
  - unfold lookup_user. destruct settled as [e|res]; [reflexivity|].
    destruct (name_from_reply res); reflexivity.
  - intros res data -> Hst Hj Hn. apply Hok in Hst.
    unfold lookup_user, name_from_reply. rewrite Hst, Hj, Hn. cbn [negb].
    destruct (truthy (prop data "clientPrincipal")); reflexivity.
  - intros [[e ->]|(res & -> & H)]; [reflexivity|].
    unfold lookup_user, name_from_reply.
    destruct (reply_ok res) eqn:Hst; cbn [negb]; [|reflexivity].
    destruct H as [H|[[e He]|(data & Hj & Hn)]].
    + apply Hok in Hst. contradiction.
    + rewrite He. reflexivity.
    + rewrite Hj, Hn. reflexivity.
Qed.


(* --------------------------------------------------------------------- *)
(** *** Sessions *)

Section Sessions.

Variable stringify : value -> string.

Lemma finish_save_not_saving o p :
  saveStatus (fst (finish_save o p)) <> saving.
Proof.
  unfold finish_save.
  destruct o as [e|res]; [cbn; discriminate|].
  destruct (reply_ok res); [cbn; discriminate|].
  destruct (reply_text res); cbn; discriminate.
Qed.

Lemma patient_step s h s' :
  settled_or_saving s -> hasty s h = false ->
  happen stringify s h = Some s' -> settled_or_saving s'.
Proof.
  unfold settled_or_saving. intros Hinv Hh Hs.
  destruct h as [|o|]; simpl in Hs.
  - unfold button_disabled in Hs.
    simpl in Hh. apply negb_false_iff, Nat.eqb_eq in Hh.
    destruct (saveStatus (page s)) eqn:Hst; try discriminate;
      destruct (save_request stringify (duties (page s)));
      injection Hs as <-; cbn; auto.
  - destruct (in_flight s) as [|n] eqn:Hn; [discriminate|].
    destruct (saveStatus (page s)) eqn:Hst; try discriminate.
    destruct Hinv as [Hone Hno]. injection Hone as ->.
    pose proof (finish_save_not_saving o (page s)) as Hfin.
    destruct (finish_save o (page s)) as [p timer]. injection Hs as <-.
    cbn in *. destruct (saveStatus p); try reflexivity. congruence.
  - destruct (timers s) as [|n] eqn:Hn; [discriminate|].
    injection Hs as <-. cbn.
    destruct (saveStatus (page s)); try assumption. destruct Hinv; discriminate.
Qed.

(** X14.  In a session in which the save button is never clicked while
    the timer of an earlier success is pending, at most one save is in
    flight at any time, and the button is disabled exactly while one is. *)
Theorem patient_sessions_save_one_at_a_time s hs s' :
  settled_or_saving s ->
  patient stringify s hs = true ->
  happen_all stringify s hs = Some s' ->
  (in_flight s' <= 1)%nat /\
  (button_disabled (page s') = true <-> in_flight s' = 1).
Proof.
  intros Hinv Hp Hrun.
  assert (Hfinal : settled_or_saving s').
  { revert s Hinv Hp Hrun. induction hs as [|h hs IH]; intros s Hinv Hp Hrun.
    - injection Hrun as <-. exact Hinv.
    - simpl in Hp, Hrun. apply andb_prop in Hp as [Hh Hp].
      apply negb_true_iff in Hh.
      destruct (happen stringify s h) as [s1|] eqn:Hs; [|discriminate].
      exact (IH s1 (patient_step s h s1 Hinv Hh Hs) Hp Hrun). }
  unfold settled_or_saving in Hfinal. unfold button_disabled.
  destruct (saveStatus (page s')).
  - rewrite Hfinal. split; [lia|]. split; discriminate.
  - destruct Hfinal as [-> _]. split; [lia|]. split; reflexivity.
  - rewrite Hfinal. split; [lia|]. split; discriminate.
  - rewrite Hfinal. split; [lia|]. split; discriminate.
Qed.

(** X15.  A click made while the timer of an earlier success is pending
    can be followed by that timer and by a second click: the timer puts
    the status back to ['idle'] while the first save is still in flight,
    the button is enabled again, and two more saves are in flight than
    before. *)
Theorem hasty_click_puts_two_saves_in_flight s l :
  duties (page s) = entries l ->
  button_disabled (page s) = false ->
  (0 < timers s)%nat ->
  exists s',
    happen_all stringify s [ClickSave; TimerFires; ClickSave] = Some s' /\
    in_flight s' = S (S (in_flight s)) /\
    saveStatus (page s') = saving.
Proof.
  intros Hd Hb Ht.
  destruct s as [[d u st m] n t]. cbn in Hd, Hb, Ht. subst d.
  destruct t as [|t]; [lia|].
  unfold button_disabled in Hb. cbn in Hb.
  destruct st; try discriminate Hb;
    cbn; unfold save_request; repeat (rewrite project_entries; cbn);
    eexists; repeat split.
Qed.

End Sessions.

(* --------------------------------------------------------------------- *)
(** *** From the drag to the sink *)

(** X16.  After any drag-end events on a roster that is not empty, what the
    page posts is a permutation of the entries it started with, and that
    body passes the shape validation of [saveDuty]: an authenticated
    request carrying it, with the URL set, is never answered with a 400
    and, when [JSON.stringify] serialises the payload, is forwarded to the
    sink in one POST with exactly those entries, in the order on the
    page. *)
Theorem reordered_roster_is_saved_whole stringify P w p url l events :
  l <> [] ->
  authenticated P w p ->
  configured w url ->
  exists l',
    drags (entries l) events = inr (entries l') /\
    Permutation l l' /\
    save_request stringify (entries l') =
      inr (mkInit "POST" [("Content-Type", "application/json")]
             (stringify (save_body l'))) /\
    (request_json w = inr (save_body l') ->
     (exists r, result P w = Responded r /\ status r <> 400%Z) /\
     (forall text,
        JSON_stringify P (payload_of w p (map to_value l')) = inr text ->
        sent P w =
          [(url, mkInit "POST" [("Content-Type", "application/json")] text)])).
Proof.
  intros Hl Ha Hc.
  destruct (drags_entries l events Hl) as (l' & Hrun & Hperm).
  exists l'. split; [exact Hrun|]. split; [exact Hperm|]. split.
  - unfold save_request. rewrite project_entries. reflexivity.
  - intros Hb.
    assert (Hd : prop (save_body l') "duties" = VArray (map to_value l'))
      by reflexivity.
    assert (Hds : map to_value l' <> []).
    { intros E. apply map_eq_nil in E. subst l'.
      apply Permutation_sym, Permutation_nil in Hperm. contradiction. }
    pose proof (roster_valid l') as Hv.
    split.
    + apply (validated_not_400 P w p (save_body l') (map to_value l') url);
        assumption.
    + intros text Hs.
      apply (forwarded_once P w p (save_body l') (map to_value l') url text);
        assumption.
Qed.

(* --------------------------------------------------------------------- *)
(** *** On the sample data *)

Lemma sample_authenticated json url answer :
  authenticated node (request (Some header_ab) json url answer) principal_ab.
Proof. exists header_ab. repeat split; try reflexivity. discriminate. Qed.

Lemma sample_configured header json answer :
  configured (request header json (Some sink_url) answer) sink_url.
Proof. split; [reflexivity|discriminate]. Qed.

Lemma saved_roster_passes_validation_witness :
  sent node roster_arrives =
    [(sink_url,
      mkInit "POST" [("Content-Type", "application/json")]
        (stringify
           (payload_of roster_arrives principal_ab (map to_value INITIAL_DUTIES))))].
Proof.
  apply (proj1 (proj2 (proj1 (proj2
           (saved_roster_passes_validation stringify node roster_arrives
              principal_ab sink_url INITIAL_DUTIES
              (sample_authenticated _ _ _) (sample_configured _ _ _)
              eq_refl))
           ltac:(discriminate)))).
  reflexivity.
Defined.

Lemma lookup_user_always_sets_a_name_witness :
  username (lookup_user signed_in first_render) = VString "a@b.com" /\
  username (lookup_user signed_out first_render) = VString "未認証" /\
  username (lookup_user not_found first_render) = VString "（ローカル開発中）".
Proof.
  split; [|split].
  - apply (proj1 (proj2 (proj2 (proj2
             (lookup_user_always_sets_a_name signed_in first_render))))
             (mkReply 200 (inr "")
                (inr (VObject [("clientPrincipal",
                                VObject [("userDetails", VString "a@b.com")])])))
             (VObject [("clientPrincipal",
                        VObject [("userDetails", VString "a@b.com")])]));
      try reflexivity.
    simpl. lia.
  - apply (proj1 (proj2 (proj2 (proj2
             (lookup_user_always_sets_a_name signed_out first_render))))
             (mkReply 200 (inr "") (inr (VObject [("clientPrincipal", VNull)])))
             (VObject [("clientPrincipal", VNull)]));
      try reflexivity.
    simpl. lia.
  - apply (proj2 (proj2 (proj2 (proj2
             (lookup_user_always_sets_a_name not_found first_render))))).
    right. eexists. split; [reflexivity|]. left. simpl. lia.
Defined.

Lemma patient_sessions_save_one_at_a_time_witness :
  exists s',
    happen_all stringify fresh unhurried = Some s' /\
    (in_flight s' <= 1)%nat /\
    (button_disabled (page s') = true <-> in_flight s' = 1).
Proof.
  eexists. split; [reflexivity|].
  apply (patient_sessions_save_one_at_a_time stringify fresh unhurried).
  - reflexivity.
  - reflexivity.
  - reflexivity.
Defined.

Lemma hasty_click_puts_two_saves_in_flight_witness :
  exists s',
    happen_all stringify just_saved [ClickSave; TimerFires; ClickSave] = Some s' /\
    in_flight s' = 2 /\ saveStatus (page s') = saving.
Proof.
  apply (hasty_click_puts_two_saves_in_flight stringify just_saved INITIAL_DUTIES).
  - reflexivity.
  - reflexivity.
  - simpl. lia.
Defined.

Lemma two_drags_give_reordered :
  drags (entries INITIAL_DUTIES) two_drags = inr (entries reordered).
Proof. reflexivity. Qed.

Lemma reordered_roster_is_saved_whole_witness :
  exists l',
    drags (entries INITIAL_DUTIES) two_drags = inr (entries l') /\
    Permutation INITIAL_DUTIES l' /\
    save_request stringify (entries l') =
      inr (mkInit "POST" [("Content-Type", "application/json")]
             (stringify (save_body l'))) /\
    (request_json reordered_arrives = inr (save_body l') ->
     (exists r, result node reordered_arrives = Responded r /\ status r <> 400%Z) /\
     (forall text,
        JSON_stringify node
          (payload_of reordered_arrives principal_ab (map to_value l')) = inr text ->
        sent node reordered_arrives =
          [(sink_url, mkInit "POST" [("Content-Type", "application/json")] text)])).
Proof.
  apply (reordered_roster_is_saved_whole stringify node reordered_arrives
           principal_ab sink_url INITIAL_DUTIES two_drags).
  - discriminate.
  - apply sample_authenticated.
  - apply sample_configured.
Defined.

End AppFacts.

(* ===================================================================== *)
(** ** More facts about the roster *)
(* ===================================================================== *)

Module RosterMore.

Import Roster RosterFacts Sample.

Lemma entries_move l i j d :
  insert_at j (Some d) (remove_at i (entries l))
  = entries (insert_at j d (remove_at i l)).
Proof.
  unfold insert_at, remove_at, entries.
  rewrite !firstn_map, !skipn_map, <- !map_app.
  rewrite !firstn_map, !skipn_map.
  change (Some d :: map Some (skipn j (firstn i l ++ skipn (S i) l)))
    with (map Some (d :: skipn j (firstn i l ++ skipn (S i) l))).
  rewrite <- map_app. reflexivity.
Qed.

Lemma remove_insert {A} k (x : A) m :
  (k <= length m)%nat -> remove_at k (insert_at k x m) = m.
Proof.
  intros Hk. unfold remove_at, insert_at.
  assert (Hlen : length (firstn k m) = k) by (rewrite length_firstn; lia).
  rewrite firstn_app, Hlen, Nat.sub_diag. cbn [firstn].
  rewrite app_nil_r, firstn_firstn, Nat.min_id.
  rewrite skipn_app, Hlen.
  rewrite (skipn_all2 (n := S k) (firstn k m)) by lia.
  replace (S k - k)%nat with 1%nat by lia. cbn [skipn app].
  apply firstn_skipn.
Qed.

Lemma insert_remove {A} i (x : A) l :
  nth_error l i = Some x -> insert_at i x (remove_at i l) = l.
Proof.
  intros Hx.
  assert (Hi : (i < length l)%nat) by (apply nth_error_Some; congruence).
  assert (Hlen : length (firstn i l) = i) by (rewrite length_firstn; lia).
  unfold insert_at, remove_at.
  rewrite firstn_app, Hlen, Nat.sub_diag. cbn [firstn].
  rewrite app_nil_r, firstn_firstn, Nat.min_id.
  rewrite skipn_app, Hlen, Nat.sub_diag.
  rewrite (skipn_all2 (n := i) (firstn i l)) by lia. cbn [skipn app].
  symmetry. apply split_at, Hx.
Qed.

Lemma filter_insert_at {A} (keep : A -> bool) j x m :
  keep x = false -> filter keep (insert_at j x m) = filter keep m.
Proof.
  intros Hx. unfold insert_at. rewrite filter_app. cbn [filter]. rewrite Hx.
  rewrite <- filter_app, firstn_skipn. reflexivity.
Qed.

Lemma filter_remove_at {A} (keep : A -> bool) i x l :
  nth_error l i = Some x -> keep x = false ->
  filter keep (remove_at i l) = filter keep l.
Proof.
  intros Hi Hx. rewrite (split_at i l x Hi) at 2. unfold remove_at.
  rewrite !filter_app. cbn [filter]. rewrite Hx. reflexivity.
Qed.

(** The handler on two entries of a roster with distinct ids: the dragged
    entry is taken out and put in at the position of the other one. *)
Lemma handleDragEnd_moves l i k d t :
  NoDup (map id l) ->
  nth_error l i = Some d -> nth_error l k = Some t -> id d <> id t ->
  handleDragEnd (entries l) (mkDragEnd (id d) (Some (id t)))
  = inr (entries (insert_at k d (remove_at i l))).
Proof.
  intros Hnd Hi Hk Hne.
  assert (Hilt : (i < length l)%nat) by (apply nth_error_Some; congruence).
  assert (Hklt : (k < length l)%nat) by (apply nth_error_Some; congruence).
  assert (Hlen : length (entries l) = length l) by apply length_map.
  assert (Hin : forall n x, nth_error l n = Some x -> In (id x) (map id l)).
  { intros n x Hn. apply in_map. exact (nth_error_In _ _ Hn). }
  unfold handleDragEnd. cbn [over_id active_id].
  destruct (String.eqb_spec (id d) (id t)) as [E|_]; [contradiction|]. cbn [negb].
  unfold findIndex.
  destruct (findIndex_from_entries (id d) l 0) as (r1 & -> & H1).
  destruct (findIndex_from_entries (id t) l 0) as (r2 & -> & H2).
  destruct H1 as [[_ Hnot]|(n1 & d1 & -> & Hn1 & Hd1)];
    [exfalso; exact (Hnot (Hin _ _ Hi))|].
  destruct H2 as [[_ Hnot]|(n2 & d2 & -> & Hn2 & Hd2)];
    [exfalso; exact (Hnot (Hin _ _ Hk))|].
  assert (n1 = i) by (eapply same_id_same_index; eauto). subst n1.
  assert (n2 = k) by (eapply same_id_same_index; eauto). subst n2.
  rewrite !Z.add_0_l.
  assert (Hx : nth_error (entries l) i = Some (Some d)).
  { unfold entries. rewrite nth_error_map, Hi. reflexivity. }
  pose proof (arrayMove_unfold (entries l) (Z.of_nat i) (Z.of_nat k) (Some d)) as Hmove.
  cbv zeta in Hmove.
  replace (Z.to_nat (if (Z.of_nat i <? 0)%Z
                     then Z.of_nat (length (entries l)) + Z.of_nat i
                     else Z.of_nat i)) with i in Hmove
    by (destruct (Z.ltb_spec (Z.of_nat i) 0); lia).
  destruct Hmove as (j & Hmove & Hj); [lia|exact Hx|].
  rewrite Hj, Nat2Z.id in Hmove by lia.
  rewrite Hmove, entries_move. reflexivity.
Qed.

(** X17.  A drag of one of the entries leaves all the other entries in the
    order they were in: without the entries that carry the dragged id, the
    roster is the same before and after. *)
Theorem other_entries_keep_their_order l e :
  In (active_id e) (map id l) ->
  exists l',
    handleDragEnd (entries l) e = inr (entries l') /\
    filter (fun x => negb (String.eqb (id x) (active_id e))) l'
    = filter (fun x => negb (String.eqb (id x) (active_id e))) l.
Proof.
  intros Hin. unfold handleDragEnd.
  destruct (over_id e) as [over|]; [|exists l; split; reflexivity].
  destruct (negb (active_id e =? over)%string); [|exists l; split; reflexivity].
  unfold findIndex.
  destruct (findIndex_from_entries (active_id e) l 0) as (r1 & -> & H1).
  destruct (findIndex_from_entries over l 0) as (r2 & -> & _).
  destruct H1 as [[_ Hnot]|(n & d & -> & Hn & Hd)]; [contradiction|].
  rewrite Z.add_0_l.
  assert (Hnlt : (n < length l)%nat) by (apply nth_error_Some; congruence).
  assert (Hlen : length (entries l) = length l) by apply length_map.
  assert (Hx : nth_error (entries l) n = Some (Some d)).
  { unfold entries. rewrite nth_error_map, Hn. reflexivity. }
  pose proof (arrayMove_unfold (entries l) (Z.of_nat n) r2 (Some d)) as Hmove.
  cbv zeta in Hmove.
  replace (Z.to_nat (if (Z.of_nat n <? 0)%Z
                     then Z.of_nat (length (entries l)) + Z.of_nat n
                     else Z.of_nat n)) with n in Hmove
    by (destruct (Z.ltb_spec (Z.of_nat n) 0); lia).
  destruct Hmove as (j & Hmove & _); [lia|exact Hx|].
  exists (insert_at j d (remove_at n l)). split.
  - rewrite Hmove, entries_move. reflexivity.
  - assert (Hdrop : negb (String.eqb (id d) (active_id e)) = false).
    { rewrite Hd, String.eqb_refl. reflexivity. }
    rewrite filter_insert_at by exact Hdrop.
    apply (filter_remove_at _ n d); assumption.
Qed.

(** X18.  A drag is undone by dragging back: after the entry at position
    [i] has been dragged onto the entry at position [k], dragging it onto
    the entry that is now at position [i] gives the original roster. *)
Theorem a_drag_is_undone_by_dragging_back l i k d t :
  NoDup (map id l) ->
  nth_error l i = Some d -> nth_error l k = Some t -> i <> k ->
  exists l1 u,
    handleDragEnd (entries l) (mkDragEnd (id d) (Some (id t))) = inr (entries l1) /\
    nth_error l1 i = Some u /\
    handleDragEnd (entries l1) (mkDragEnd (id d) (Some (id u))) = inr (entries l).
Proof.
  intros Hnd Hi Hk Hik.
  assert (Hilt : (i < length l)%nat) by (apply nth_error_Some; congruence).
  assert (Hklt : (k < length l)%nat) by (apply nth_error_Some; congruence).
  assert (Hne : id d <> id t).
  { intros E. apply Hik. eapply same_id_same_index; eauto. }
  set (m := remove_at i l).
  assert (Hm : length m = (length l - 1)%nat) by (apply length_remove_at; exact Hilt).
  set (l1 := insert_at k d m).
  assert (Hperm : Permutation l l1).
  { etransitivity; [apply (remove_at_perm i l d Hi)|]. apply insert_at_perm. }
  assert (Hnd1 : NoDup (map id l1)).
  { eapply Permutation_NoDup; [|exact Hnd]. apply Permutation_map, Hperm. }
  assert (Hk1 : nth_error l1 k = Some d).
  { apply nth_error_insert_at. lia. }
  assert (Hlen1 : length l1 = length l).
  { symmetry. apply Permutation_length, Hperm. }
  destruct (nth_error l1 i) as [u|] eqn:Hi1;
    [|apply nth_error_None in Hi1; lia].
  exists l1, u. split; [|split].
  - apply handleDragEnd_moves; assumption.
  - exact Hi1.
  - assert (Hne1 : id d <> id u).
    { intros E. apply Hik. symmetry. eapply (same_id_same_index l1); eauto. }
    rewrite (handleDragEnd_moves l1 k i d u Hnd1 Hk1 Hi1 Hne1).
    unfold l1. rewrite remove_insert by lia.
    unfold m. rewrite insert_remove by exact Hi. reflexivity.
Qed.

(** X19.  Whatever drag-end events arrive, also events that name no entry,
    a roster that is not empty stays a permutation of itself and the
    handler does not throw; on the empty roster an event with two
    different ids leaves an array with one [undefined] element. *)
Theorem any_events_keep_a_nonempty_roster :
  (forall l events,
     l <> [] ->
     exists l', drags (entries l) events = inr (entries l') /\ Permutation l l')
  /\ (forall a o,
        a <> o -> handleDragEnd (entries []) (mkDragEnd a (Some o)) = inr [None]).
Proof.
  split.
  - intros l events Hl. exact (drags_entries l events Hl).
  - intros a o Hne. unfold handleDragEnd. cbn [over_id active_id].
    destruct (String.eqb_spec a o); [contradiction|]. reflexivity.
Qed.


(* --------------------------------------------------------------------- *)
(** *** On the initial roster *)

Lemma initial_ids_distinct : NoDup (map id INITIAL_DUTIES).
Proof. simpl. repeat constructor; simpl; intuition discriminate. Qed.

Lemma other_entries_keep_their_order_witness :
  exists l',
    handleDragEnd (entries INITIAL_DUTIES) (mkDragEnd "mon" (Some "thu"))
      = inr (entries l') /\
    filter (fun x => negb (String.eqb (id x) "mon")) l'
    = filter (fun x => negb (String.eqb (id x) "mon")) INITIAL_DUTIES.
Proof.
  apply (other_entries_keep_their_order INITIAL_DUTIES (mkDragEnd "mon" (Some "thu"))).
  simpl. auto.
Defined.

Lemma a_drag_is_undone_by_dragging_back_witness :
  exists l1 u,
    handleDragEnd (entries INITIAL_DUTIES) (mkDragEnd "mon" (Some "thu"))
      = inr (entries l1) /\
    nth_error l1 0 = Some u /\
    handleDragEnd (entries l1) (mkDragEnd "mon" (Some (id u)))
      = inr (entries INITIAL_DUTIES).
Proof.
  apply (a_drag_is_undone_by_dragging_back INITIAL_DUTIES 0 3
           (mkDuty "mon" "月曜日" "田中 太郎") (mkDuty "thu" "木曜日" "山田 美咲")).
  - exact initial_ids_distinct.
  - reflexivity.
  - reflexivity.
  - discriminate.
Defined.

End RosterMore.
